(** * VideoPlayer (src/video-player.tsx): a shallow embedding and its properties

    The component is a React function component: a record of state cells
    ([useState]), two refs ([useRef]), five effects ([useEffect]) and a set of
    event handlers that close over the values of the render in which they
    were created.  The embedding keeps that shape:

    - [View] is the tuple of [useState] cells, [World] adds the refs, the
      playback adapter ([player]) and the trace of what the component did to
      the outside (adapter commands and parent callbacks);
    - a handler is a computation in a small state-and-exception monad [M],
      parameterised by the render snapshot it closes over;
    - [rerender] runs the effects whose dependency arrays changed;
    - [step] dispatches one event (interval tick, status notification,
      gesture, ...) and [run] folds a list of events from [mount].

    JavaScript numbers are modelled as exact rationals ([Q]): comparisons,
    [Math.max], [Math.min], [Math.abs], products and differences are exact.
    NaN and the infinities are outside the model; a quotient is only used
    where its divisor is known to be non-zero. *)

From Stdlib Require Import QArith Qabs Qround Bool List Arith Lia Lqa.
From Stdlib Require String Ascii DecimalString.
Import String.StringSyntax Ascii.AsciiSyntax.
Delimit Scope string_scope with string.
Delimit Scope char_scope with char.
Import ListNotations.

Open Scope Q_scope.

(** ** Numbers *)

Module Num.

(** [a <= b], [a < b], [a >= b], [a > b] of the source, as booleans. *)
Definition leb (a b : Q) : bool := Qle_bool a b.
Definition ltb (a b : Q) : bool := negb (Qle_bool b a).
Definition geb (a b : Q) : bool := Qle_bool b a.
Definition gtb (a b : Q) : bool := negb (Qle_bool a b).

(** [Object.is] on the numbers of the model. *)
Definition eqb (a b : Q) : bool := Qeq_bool a b.

Definition Math_max (a b : Q) : Q := if Qle_bool a b then b else a.
Definition Math_min (a b : Q) : Q := if Qle_bool a b then a else b.
Definition Math_abs (a : Q) : Q := Qabs a.

(** The clamp the specification speaks of, written from its words: a
    value below the range goes to its lower end, a value above it to its
    upper end, any other value is kept. *)
Definition clamp (x lo hi : Q) : Q :=
  if ltb x lo then lo else if ltb hi x then hi else x.

End Num.
Import Num.

(** ** Data *)

(** The properties of the expo-video player object the component reads or
    writes. *)
Record Player := mkPlayer {
  player_currentTime : Q;
  player_duration : Q;
  player_playing : bool;
  player_muted : bool;
  player_volume : Q;
  player_playbackRate : Q;
  player_loop : bool
}.

(** The native methods of the player.  They belong to expo-video, not to
    this repository, and are taken as a parameter.  [native_seekBy] answers
    [None] when the call throws. *)
Record Engine := mkEngine {
  native_play : Player -> Player;
  native_pause : Player -> Player;
  native_seekBy : Q -> Player -> option Player
}.

(** [status.status] of a statusChange notification. *)
Inductive Status := idle | loading | readyToPlay | error.

Definition Status_eqb (a b : Status) : bool :=
  match a, b with
  | idle, idle | loading, loading | readyToPlay, readyToPlay | error, error => true
  | _, _ => false
  end.

(** VideoPlayerProps (source, the fullscreen callback and the icons play no
    part in the logic).  An optional callback is modelled by whether it is
    registered; calling it is recorded in the trace. *)
Record Props := mkProps {
  isFullscreen : bool;
  onVideoEnd : bool;
  onProgress : bool;
  autoPlay : bool;
  startPosition : Q
}.

(** The [useState] cells, lines 51-58. *)
Record View := mkView {
  isPlaying : bool;
  currentTime : Q;
  duration : Q;
  showControls : bool;
  playbackRate : Q;
  showSettings : bool;
  isLoading : bool;
  isDragging : bool
}.

(** Which statement assigned [player.currentTime]: line 69/71 or line 209. *)
Inductive Site := InitialPosition | SeekFallback.

(** What the component does to its collaborators. *)
Inductive Action :=
| CallPlay
| CallPause
| CallSeekBy (delta : Q)
| AssignCurrentTime (site : Site) (t : Q)
| AssignPlaybackRate (rate : Q)
| AssignMuted (m : bool)
| FireVideoEnd
| FireProgress (progress t : Q).

(** State cells, adapter, refs, the window and the trace.
    [controlsTimeout] tells whether the auto-hide timeout is pending. *)
Record World := mkWorld {
  view : View;
  player : option Player;
  hasSetInitialPosition : bool;
  controlsTimeout : bool;
  windowWidth : Q;
  log : list Action
}.

(** The touch event: [event.nativeEvent.locationX]. *)
Record TouchEvent := mkTouch { locationX : Q }.

(** ** The monad of handlers *)

Inductive Result (A : Type) :=
| Done (a : A) (w : World)
| Thrown (w : World).
Arguments Done {A} a w.
Arguments Thrown {A} w.

Definition M (A : Type) : Type := World -> Result A.

Definition ret {A} (a : A) : M A := fun w => Done a w.

Definition bind {A B} (m : M A) (k : A -> M B) : M B :=
  fun w => match m w with
           | Done a w' => k a w'
           | Thrown w' => Thrown w'
           end.

(** [try { body } catch { handler }] *)
Definition try_catch {A} (body handler : M A) : M A :=
  fun w => match body w with
           | Done a w' => Done a w'
           | Thrown w' => handler w'
           end.

Definition get : M World := fun w => Done w w.
Definition modify (f : World -> World) : M unit := fun w => Done tt (f w).

Definition world_of {A} (r : Result A) : World :=
  match r with Done _ w => w | Thrown w => w end.

Definition completes {A} (r : Result A) : bool :=
  match r with Done _ _ => true | Thrown _ => false end.

Declare Scope handler_scope.
Delimit Scope handler_scope with handler.
Notation "x <- m ;; k" := (bind m (fun x => k))
  (at level 61, m at next level, right associativity) : handler_scope.
Notation "m ;; k" := (bind m (fun _ => k))
  (at level 61, right associativity) : handler_scope.
Open Scope handler_scope.

(** ** Setters *)

Definition with_view (f : View -> View) (w : World) : World :=
  mkWorld (f (view w)) (player w) (hasSetInitialPosition w)
          (controlsTimeout w) (windowWidth w) (log w).

Definition with_player (f : Player -> Player) (w : World) : World :=
  mkWorld (view w) (option_map f (player w)) (hasSetInitialPosition w)
          (controlsTimeout w) (windowWidth w) (log w).

Definition with_latch (b : bool) (w : World) : World :=
  mkWorld (view w) (player w) b (controlsTimeout w) (windowWidth w) (log w).

Definition with_timeout (b : bool) (w : World) : World :=
  mkWorld (view w) (player w) (hasSetInitialPosition w) b (windowWidth w) (log w).

Definition with_window (x : Q) (w : World) : World :=
  mkWorld (view w) (player w) (hasSetInitialPosition w) (controlsTimeout w) x (log w).

Definition record (a : Action) (w : World) : World :=
  mkWorld (view w) (player w) (hasSetInitialPosition w)
          (controlsTimeout w) (windowWidth w) (log w ++ [a]).

Definition setIsPlaying (b : bool) : M unit :=
  modify (with_view (fun v =>
    mkView b (currentTime v) (duration v) (showControls v) (playbackRate v)
           (showSettings v) (isLoading v) (isDragging v))).

Definition setCurrentTime (t : Q) : M unit :=
  modify (with_view (fun v =>
    mkView (isPlaying v) t (duration v) (showControls v) (playbackRate v)
           (showSettings v) (isLoading v) (isDragging v))).

Definition setDuration (d : Q) : M unit :=
  modify (with_view (fun v =>
    mkView (isPlaying v) (currentTime v) d (showControls v) (playbackRate v)
           (showSettings v) (isLoading v) (isDragging v))).

Definition setShowControls (b : bool) : M unit :=
  modify (with_view (fun v =>
    mkView (isPlaying v) (currentTime v) (duration v) b (playbackRate v)
           (showSettings v) (isLoading v) (isDragging v))).

Definition setPlaybackRate (r : Q) : M unit :=
  modify (with_view (fun v =>
    mkView (isPlaying v) (currentTime v) (duration v) (showControls v) r
           (showSettings v) (isLoading v) (isDragging v))).

Definition setShowSettings (b : bool) : M unit :=
  modify (with_view (fun v =>
    mkView (isPlaying v) (currentTime v) (duration v) (showControls v)
           (playbackRate v) b (isLoading v) (isDragging v))).

Definition setIsLoading (b : bool) : M unit :=
  modify (with_view (fun v =>
    mkView (isPlaying v) (currentTime v) (duration v) (showControls v)
           (playbackRate v) (showSettings v) b (isDragging v))).

Definition setIsDragging (b : bool) : M unit :=
  modify (with_view (fun v =>
    mkView (isPlaying v) (currentTime v) (duration v) (showControls v)
           (playbackRate v) (showSettings v) (isLoading v) b)).

(** Property writes on the player object. *)
Definition assign_currentTime (t : Q) (p : Player) : Player :=
  mkPlayer t (player_duration p) (player_playing p) (player_muted p)
           (player_volume p) (player_playbackRate p) (player_loop p).

Definition assign_playbackRate (r : Q) (p : Player) : Player :=
  mkPlayer (player_currentTime p) (player_duration p) (player_playing p)
           (player_muted p) (player_volume p) r (player_loop p).

Definition assign_muted (m : bool) (p : Player) : Player :=
  mkPlayer (player_currentTime p) (player_duration p) (player_playing p) m
           (player_volume p) (player_playbackRate p) (player_loop p).

(** ** The component *)

Section Component.

(** The native side of the adapter, the props of this mount and the
    module-level constant of line 23 (the window width when the module was
    loaded).  Props are fixed for the lifetime of a mount. *)
Variable engine : Engine.
Variable props : Props.
Variable SCREEN_WIDTH : Q.

(** *** Adapter commands *)

(** A method call on the player: recorded, then performed by the engine.
    A call on an absent player throws (TypeError). *)
Definition play : M unit :=
  fun w => match player w with
           | Some _ => Done tt (with_player (native_play engine) (record CallPlay w))
           | None => Thrown w
           end.

Definition pause : M unit :=
  fun w => match player w with
           | Some _ => Done tt (with_player (native_pause engine) (record CallPause w))
           | None => Thrown w
           end.

Definition seekBy (delta : Q) : M unit :=
  fun w => match player w with
           | Some p =>
               match native_seekBy engine delta p with
               | Some p' => Done tt (with_player (fun _ => p') (record (CallSeekBy delta) w))
               | None => Thrown (record (CallSeekBy delta) w)
               end
           | None => Thrown w
           end.

(** [player.currentTime = t], [player.playbackRate = r], [player.muted = m] *)
Definition assignCurrentTime (site : Site) (t : Q) : M unit :=
  fun w => match player w with
           | Some _ => Done tt (with_player (assign_currentTime t)
                                            (record (AssignCurrentTime site t) w))
           | None => Thrown w
           end.

Definition assignPlaybackRate (r : Q) : M unit :=
  fun w => match player w with
           | Some _ => Done tt (with_player (assign_playbackRate r)
                                            (record (AssignPlaybackRate r) w))
           | None => Thrown w
           end.

Definition assignMuted (m : bool) : M unit :=
  fun w => match player w with
           | Some _ => Done tt (with_player (assign_muted m) (record (AssignMuted m) w))
           | None => Thrown w
           end.

(** Calling a parent callback. *)
Definition fire (a : Action) : M unit := modify (record a).

(** [if (controlsTimeoutRef.current) clearTimeout(controlsTimeoutRef.current)] *)
Definition clearControlsTimeout : M unit := modify (with_timeout false).

(** [controlsTimeoutRef.current = setTimeout(() => setShowControls(false), 3000)] *)
Definition armControlsTimeout : M unit := modify (with_timeout true).

(** *** Handlers.  The argument [r] is the render the handler closes over. *)

(** Lines 136-148. *)
Definition resetControlsTimeout (r : View) : M unit :=
  clearControlsTimeout ;;
  setShowControls true ;;
  if isPlaying r then armControlsTimeout else ret tt.

(** Lines 162-173. *)
Definition togglePlayPause (r : View) : M unit :=
  w <- get ;;
  match player w with
  | None => ret tt
  | Some p =>
      (if player_playing p
       then pause ;; setIsPlaying false
       else play ;; setIsPlaying true) ;;
      resetControlsTimeout r
  end.

(** Lines 175-178. *)
Definition toggleMute : M unit :=
  w <- get ;;
  match player w with
  | None => ret tt
  | Some p => assignMuted (negb (player_muted p))
  end.

(** Lines 180-185. *)
Definition changePlaybackRate (rate : Q) : M unit :=
  w <- get ;;
  match player w with
  | None => ret tt
  | Some _ =>
      assignPlaybackRate rate ;;
      setPlaybackRate rate ;;
      setShowSettings false
  end.

(** Lines 187-216. *)
Definition seekToPosition (r : View) (position : Q) : M unit :=
  w <- get ;;
  match player w with
  | None => ret tt
  | Some p =>
      if leb (duration r) 0 then ret tt
      else
        let clampedPosition := Math_max 0 (Math_min position 1) in
        let targetTime := clampedPosition * duration r in
        let delta := targetTime - player_currentTime p in
        if ltb (Math_abs delta) (1 # 10) then setCurrentTime targetTime
        else
          try_catch (seekBy delta) (assignCurrentTime SeekFallback targetTime) ;;
          setCurrentTime targetTime
  end.

(** Line 223 (and 239): the width of the progress bar. *)
Definition progressBarWidth (w : World) : Q :=
  (if isFullscreen props then windowWidth w else SCREEN_WIDTH) - 32.

(** Lines 227-229 (and 242-244): the position handed to [seekToPosition]. *)
Definition newProgress (w : World) (event : TouchEvent) : Q :=
  let touchX := locationX event in
  let clampedTouchX := Math_max 0 (Math_min touchX (progressBarWidth w)) in
  clampedTouchX / progressBarWidth w.

(** Lines 219-232. *)
Definition handleProgressBarTouch (r : View) (event : TouchEvent) : M unit :=
  w <- get ;;
  match player w with
  | None => ret tt
  | Some _ =>
      if leb (duration r) 0 then ret tt
      else seekToPosition r (newProgress w event)
  end.

(** Lines 235-248. *)
Definition handleProgressBarTap (r : View) (event : TouchEvent) : M unit :=
  w <- get ;;
  match player w with
  | None => ret tt
  | Some _ =>
      if leb (duration r) 0 then ret tt
      else seekToPosition r (newProgress w event) ;; resetControlsTimeout r
  end.

(** Lines 279-288. *)
Definition handleVideoPress (r : View) : M unit :=
  if showControls r
  then setShowControls false ;; clearControlsTimeout
  else resetControlsTimeout r.

(** Lines 89-105, the body of the 500ms interval. *)
Definition updateProgress : M unit :=
  w <- get ;;
  match player w with
  | None => Thrown
  | Some p =>
      setCurrentTime (player_currentTime p) ;;
      setDuration (player_duration p) ;;
      setIsPlaying (player_playing p) ;;
      (if geb (player_currentTime p) (player_duration p) && gtb (player_duration p) 0
       then (if onVideoEnd props then fire FireVideoEnd else ret tt)
       else ret tt) ;;
      (if onProgress props && gtb (player_duration p) 0
       then fire (FireProgress (player_currentTime p / player_duration p)
                               (player_currentTime p))
       else ret tt)
  end.

(** Lines 121-128, the statusChange listener. *)
Definition onStatusChange (s : Status) : M unit :=
  setIsLoading (Status_eqb s loading) ;;
  if Status_eqb s readyToPlay
  then
    w <- get ;;
    match player w with
    | None => Thrown
    | Some p => setDuration (player_duration p) ;; setIsLoading false
    end
  else ret tt.

(** *** Effects *)

(** Lines 66-75. *)
Definition effect_initialPosition (r : View) : M unit :=
  w <- get ;;
  if negb (hasSetInitialPosition w)
     && (match player w with Some _ => true | None => false end)
     && gtb (duration r) 0
     && negb (isLoading r)
  then
    (if gtb (startPosition props) 0
     then assignCurrentTime InitialPosition (startPosition props)
     else assignCurrentTime InitialPosition 0) ;;
    modify (with_latch true)
  else ret tt.

(** Lines 78-83. *)
Definition effect_autoPlay (r : View) : M unit :=
  w <- get ;;
  if autoPlay props
     && (match player w with Some _ => true | None => false end)
     && negb (isLoading r)
  then play ;; setIsPlaying true
  else ret tt.

(** Lines 150-160: the body, and the cleanup React runs before the effect
    is run again. *)
Definition effect_autoHide (r : View) : M unit :=
  if isPlaying r then resetControlsTimeout r else ret tt.

Definition cleanup_autoHide : M unit := clearControlsTimeout.

(** Dependency arrays.  [player], [startPosition] and [autoPlay] do not
    change during a mount; [resetControlsTimeout] changes exactly when
    [isPlaying] does (line 148). *)
Definition deps_initialPosition_changed (r0 r1 : View) : bool :=
  negb (eqb (duration r0) (duration r1))
  || negb (Bool.eqb (isLoading r0) (isLoading r1)).

Definition deps_autoPlay_changed (r0 r1 : View) : bool :=
  negb (Bool.eqb (isLoading r0) (isLoading r1)).

Definition deps_autoHide_changed (r0 r1 : View) : bool :=
  negb (Bool.eqb (isPlaying r0) (isPlaying r1)).

(** [Object.is] on every state cell: React renders again only when a cell
    changed. *)
Definition View_eqb (a b : View) : bool :=
  Bool.eqb (isPlaying a) (isPlaying b)
  && eqb (currentTime a) (currentTime b)
  && eqb (duration a) (duration b)
  && Bool.eqb (showControls a) (showControls b)
  && eqb (playbackRate a) (playbackRate b)
  && Bool.eqb (showSettings a) (showSettings b)
  && Bool.eqb (isLoading a) (isLoading b)
  && Bool.eqb (isDragging a) (isDragging b).

(** The effects of the render [r1] that follows the render [r0]: cleanups
    of the effects whose dependencies changed, then their bodies in the
    order of the source. *)
Definition effects_pass (r0 r1 : View) : M unit :=
  (if deps_autoHide_changed r0 r1 then cleanup_autoHide else ret tt) ;;
  (if deps_initialPosition_changed r0 r1 then effect_initialPosition r1 else ret tt) ;;
  (if deps_autoPlay_changed r0 r1 then effect_autoPlay r1 else ret tt) ;;
  (if deps_autoHide_changed r0 r1 then effect_autoHide r1 else ret tt).

(** Render after render until no state cell changes.  The effects write
    [isPlaying] and [showControls] only, so the third render finds nothing
    to do ([rerender_settles] below). *)
Fixpoint rerender (fuel : nat) (r0 : View) : M unit :=
  match fuel with
  | O => ret tt
  | S fuel' =>
      w <- get ;;
      let r1 := view w in
      if View_eqb r0 r1 then ret tt
      else effects_pass r0 r1 ;; rerender fuel' r1
  end.

(** *** Mounting *)

(** Initial values of the state cells, lines 51-58. *)
Definition initialView : View :=
  mkView false 0 0 true 1 false true false.

(** The setup callback of [useVideoPlayer], lines 44-49. *)
Definition setupPlayer (p : Player) : Player :=
  mkPlayer (player_currentTime p) (player_duration p) (player_playing p)
           false 1 1 false.

(** The first render: every effect runs once. *)
Definition mount (p : option Player) (width : Q) : World :=
  world_of
    ((effect_initialPosition initialView ;;
      effect_autoPlay initialView ;;
      effect_autoHide initialView)
       (mkWorld initialView (option_map setupPlayer p) false false width [])).

(** *** Events *)

(** The rates of the settings menu, line 427. *)
Definition playbackRates : list Q := [1 # 2; 3 # 4; 1; 5 # 4; 3 # 2; 2].

Inductive Event :=
| Tick                              (* the 500ms interval fires *)
| StatusChange (s : Status)         (* the adapter notifies a status *)
| EngineUpdate (p : Player)         (* the adapter moves on by itself *)
| Resize (width : Q)                (* the window changes width *)
| ControlsTimeoutFires              (* the 3000ms timeout elapses *)
| PressVideo
| PressPlayPause
| PressMute
| PressSettings
| PressRate (rate : Q)
| ProgressBarTap (event : TouchEvent)
| PanGrant (event : TouchEvent)
| PanMove (event : TouchEvent)
| PanRelease (event : TouchEvent).

(** Line 318: the overlay with the controls is on screen. *)
Definition controlsOnScreen (r : View) : bool :=
  showControls r && negb (isLoading r).

(** Lines 251-271.  The responder is created in the first render and kept
    in a ref: its callbacks close over the handlers of that render. *)
Definition onPanResponderGrant (event : TouchEvent) : M unit :=
  setIsDragging true ;;
  clearControlsTimeout ;;
  handleProgressBarTouch initialView event.

Definition onPanResponderMove (event : TouchEvent) : M unit :=
  handleProgressBarTouch initialView event.

Definition onPanResponderRelease (event : TouchEvent) : M unit :=
  handleProgressBarTouch initialView event ;;
  setIsDragging false ;;
  resetControlsTimeout initialView.

(** The code an event runs, given the current render [r]. *)
Definition handler (ev : Event) (r : View) : M unit :=
  match ev with
  | Tick =>
      w <- get ;;
      match player w with Some _ => updateProgress | None => ret tt end
  | StatusChange s =>
      w <- get ;;
      match player w with Some _ => onStatusChange s | None => ret tt end
  | EngineUpdate p => modify (with_player (fun _ => p))
  | Resize width => modify (with_window width)
  | ControlsTimeoutFires =>
      w <- get ;;
      if controlsTimeout w
      then setShowControls false ;; modify (with_timeout false)
      else ret tt
  | PressVideo => handleVideoPress r
  | PressPlayPause =>
      if controlsOnScreen r then togglePlayPause r else ret tt
  | PressMute =>
      if controlsOnScreen r then toggleMute else ret tt
  | PressSettings =>
      if controlsOnScreen r then setShowSettings (negb (showSettings r)) else ret tt
  | PressRate rate =>
      if controlsOnScreen r && showSettings r && existsb (eqb rate) playbackRates
      then changePlaybackRate rate else ret tt
  | ProgressBarTap event =>
      if controlsOnScreen r then handleProgressBarTap r event else ret tt
  | PanGrant event =>
      if controlsOnScreen r then onPanResponderGrant event else ret tt
  | PanMove event =>
      if controlsOnScreen r then onPanResponderMove event else ret tt
  | PanRelease event =>
      if controlsOnScreen r then onPanResponderRelease event else ret tt
  end.

(** One event: its handler, then the renders it causes.  An exception
    that leaves a handler ends the handler; state set before it stays. *)
Definition step (w : World) (ev : Event) : World :=
  let r := view w in
  world_of (rerender 3 r (world_of (handler ev r w))).

Definition run (evs : list Event) (w : World) : World :=
  fold_left step evs w.

End Component.

(** Line 63: the progress the bar displays. *)
Definition progress (v : View) : Q :=
  if gtb (duration v) 0 then currentTime v / duration v else 0.

(** ** Concrete adapters and worlds, used to exercise the statements *)

Module Demo.

(** An engine that does what its commands say. *)
Definition obedient : Engine :=
  mkEngine
    (fun p => mkPlayer (player_currentTime p) (player_duration p) true
                       (player_muted p) (player_volume p) (player_playbackRate p)
                       (player_loop p))
    (fun p => mkPlayer (player_currentTime p) (player_duration p) false
                       (player_muted p) (player_volume p) (player_playbackRate p)
                       (player_loop p))
    (fun delta p => Some (assign_currentTime (player_currentTime p + delta) p)).

(** An engine whose relative seek always throws. *)
Definition stubborn : Engine :=
  mkEngine (native_play obedient) (native_pause obedient) (fun _ _ => None).

(** Two minutes of media, ten seconds in. *)
Definition media : Player := mkPlayer 10 120 true false 1 1 false.

(** The same media once playback reached its end. *)
Definition ended : Player := mkPlayer 120 120 false false 1 1 false.

Definition props : Props := mkProps false true true true 30.

(** A render in which the duration is known and the controls are shown. *)
Definition ready : View := mkView true 10 120 true 1 true false false.

Definition world : World := mkWorld ready (Some media) true false 400 [].

Definition world_ended : World :=
  mkWorld (mkView false 120 120 true 1 false false false) (Some ended) true false 400 [].

End Demo.

(** What [seekToPosition] aims at, in the words of the specification. *)
Definition targetTime (r : View) (position : Q) : Q :=
  clamp position 0 1 * duration r.

(** ** Reading the trace *)

Definition isVideoEnd (a : Action) : bool :=
  match a with FireVideoEnd => true | _ => false end.

Definition isProgress (a : Action) : bool :=
  match a with FireProgress _ _ => true | _ => false end.

Definition isCallback (a : Action) : bool := isVideoEnd a || isProgress a.

Definition isInitialAssignment (a : Action) : bool :=
  match a with AssignCurrentTime InitialPosition _ => true | _ => false end.

Definition isPlay (a : Action) : bool :=
  match a with CallPlay => true | _ => false end.

(** The calls to the parent, in order. *)
Definition callbacks (l : list Action) : list Action := filter isCallback l.

Definition count (f : Action -> bool) (l : list Action) : nat :=
  length (filter f l).

Definition videoEndCount : list Action -> nat := count isVideoEnd.
Definition progressCount : list Action -> nat := count isProgress.
Definition playCount : list Action -> nat := count isPlay.

(** ** What the renders of one step do, read off the effects *)

Definition hasPlayer (w : World) : bool :=
  match player w with Some _ => true | None => false end.

(** The offset the initial-position effect assigns, lines 68-72. *)
Definition startOffset (props : Props) : Q :=
  if gtb (startPosition props) 0 then startPosition props else 0.

(** The guard of the initial-position effect, line 67, on the render [r]. *)
Definition readyForInitialPosition (r : View) (w : World) : bool :=
  negb (hasSetInitialPosition w) && hasPlayer w && gtb (duration r) 0
  && negb (isLoading r).


(** The guard of the auto-play effect, line 79. *)
Definition readyForAutoPlay (props : Props) (r : View) (w : World) : bool :=
  autoPlay props && hasPlayer w && negb (isLoading r).

(** One interval tick with nothing in between: [updateProgress] alone. *)
Definition tick (props : Props) (w : World) : World :=
  world_of (updateProgress props w).

(** How many times [isLoading] goes from true to false along a run. *)
Fixpoint loadingCompletions (engine : Engine) (props : Props) (SCREEN_WIDTH : Q)
         (evs : list Event) (w : World) : nat :=
  match evs with
  | [] => 0%nat
  | ev :: evs' =>
      let w' := step engine props SCREEN_WIDTH w ev in
      ((if isLoading (view w) && negb (isLoading (view w')) then 1 else 0)
       + loadingCompletions engine props SCREEN_WIDTH evs' w')%nat
  end.

Definition isPressPlayPause (ev : Event) : bool :=
  match ev with PressPlayPause => true | _ => false end.

(** What no effect touches: the presence of the player, the window and
    every state cell but [isPlaying] and [showControls]. *)
Definition untouchedByEffects (w w' : World) : Prop :=
  hasPlayer w' = hasPlayer w
  /\ windowWidth w' = windowWidth w
  /\ currentTime (view w') = currentTime (view w)
  /\ duration (view w') = duration (view w)
  /\ playbackRate (view w') = playbackRate (view w)
  /\ showSettings (view w') = showSettings (view w)
  /\ isLoading (view w') = isLoading (view w)
  /\ isDragging (view w') = isDragging (view w).

(** Whether the initial-position effect, or the auto-play effect, does its
    work in the render [r1] that follows the render [r0]. *)
Definition initialPositionFires (r0 r1 : View) (w : World) : bool :=
  deps_initialPosition_changed r0 r1 && readyForInitialPosition r1 w.

Definition autoPlayFires (props : Props) (r0 r1 : View) (w : World) : bool :=
  deps_autoPlay_changed r0 r1 && readyForAutoPlay props r1 w.

(** The world when the handler of [ev] returns, before React renders. *)
Definition afterHandler (engine : Engine) (props : Props) (SCREEN_WIDTH : Q)
           (w : World) (ev : Event) : World :=
  world_of (handler engine props SCREEN_WIDTH ev (view w) w).


(** Line 95: the adapter is at or past the end of the media. *)
Definition pastEnd (p : Player) : bool :=
  geb (player_currentTime p) (player_duration p) && gtb (player_duration p) 0.

(** The calls to the parent one run of [updateProgress] makes when the
    adapter is in state [p], lines 95-104. *)
Definition tickCallbacks (props : Props) (p : Player) : list Action :=
  (if pastEnd p && onVideoEnd props then [FireVideoEnd] else [])
  ++ (if onProgress props && gtb (player_duration p) 0
      then [FireProgress (player_currentTime p / player_duration p) (player_currentTime p)]
      else []).

(** The gestures on the progress bar. *)
Definition isSeekGesture (ev : Event) : bool :=
  match ev with
  | ProgressBarTap _ | PanGrant _ | PanMove _ | PanRelease _ => true
  | _ => false
  end.

(** Two renders that differ in the dragging flag at most. *)
Definition sameButDragging (v v' : View) : Prop :=
  isPlaying v' = isPlaying v
  /\ currentTime v' = currentTime v
  /\ duration v' = duration v
  /\ showControls v' = showControls v
  /\ playbackRate v' = playbackRate v
  /\ showSettings v' = showSettings v
  /\ isLoading v' = isLoading v.

(** ** The rest of the component *)

(** Lines 273-277, [formatTime], and the JavaScript operations it uses.
    [Math.floor] of a rational is its integer part towards minus infinity;
    [x % y] has the sign of [x]: it is [x - y * trunc(x / y)]; an integer
    prints in decimal, with a minus sign if negative; [padStart(n, c)] puts
    copies of the one-character string [c] in front until the length is
    [n]. *)
Definition Math_floor (x : Q) : Z := Qfloor x.

Definition trunc (x : Q) : Z := Z.quot (Qnum x) (Zpos (Qden x)).

Definition remainder (x y : Q) : Q := x - y * inject_Z (trunc (x / y)).

Definition toString (z : Z) : String.string :=
  DecimalString.NilZero.string_of_int (Z.to_int z).

Fixpoint copies (n : nat) (c : Ascii.ascii) : String.string :=
  match n with
  | O => String.EmptyString
  | S n' => String.String c (copies n' c)
  end.

Definition padStart (targetLength : nat) (c : Ascii.ascii) (s : String.string)
  : String.string :=
  String.append (copies (targetLength - String.length s) c) s.

Definition formatTime (seconds : Q) : String.string :=
  let mins := Math_floor (seconds / 60) in
  let secs := Math_floor (remainder seconds 60) in
  String.append (toString mins)
    (String.append ":"%string (padStart 2 "0"%char (toString secs))).

(** The pan gestures, whose callbacks were created in the first render. *)
Definition isPan (ev : Event) : bool :=
  match ev with PanGrant _ | PanMove _ | PanRelease _ => true | _ => false end.

(** What [isLoading] should be after a run if it mirrors the last status
    the adapter notified. *)
Definition loadingAfter (evs : list Event) (before : bool) : bool :=
  fold_left (fun b ev => match ev with
                         | StatusChange s => Status_eqb s loading
                         | _ => b
                         end) evs before.

(** The auto-hide countdown is pending only while the view says playing
    and the controls are shown. *)
Definition timeoutInvariant (w : World) : Prop :=
  controlsTimeout w = true ->
  isPlaying (view w) = true /\ showControls (view w) = true.

(** The same, between a handler and the renders that follow it: [r] is
    the render the handler ran in. *)
Definition timeoutPending (r : View) (w : World) : Prop :=
  controlsTimeout w = true ->
  isPlaying r = true /\ showControls (view w) = true.

(** A rate of the settings menu. *)
Definition offered (rate : Q) : bool := existsb (eqb rate) playbackRates.

Definition ratesOffered (l : list Action) : Prop :=
  Forall (fun a => match a with
                   | AssignPlaybackRate rate => offered rate = true
                   | _ => True
                   end) l.

(** The commands a seek sends to the adapter. *)
Definition isSeekCommand (a : Action) : bool :=
  match a with
  | CallSeekBy _ | AssignCurrentTime SeekFallback _ => true
  | _ => false
  end.

(** ** Facts about the numeric tests *)

Lemma leb_true_iff a b : leb a b = true <-> a <= b.
Proof. unfold leb. apply Qle_bool_iff. Qed.

Lemma leb_false_iff a b : leb a b = false <-> b < a.
Proof.
  unfold leb. split; intro H.
  - apply Qnot_le_lt. intro Hle. apply Qle_bool_iff in Hle. congruence.
  - destruct (Qle_bool a b) eqn:E; [|reflexivity].
    apply Qle_bool_iff in E. exfalso. apply (Qlt_not_le _ _ H E).
Qed.

Lemma ltb_true_iff a b : ltb a b = true <-> a < b.
Proof.
  unfold ltb. rewrite negb_true_iff. apply (leb_false_iff b a).
Qed.

Lemma ltb_false_iff a b : ltb a b = false <-> b <= a.
Proof.
  unfold ltb. rewrite negb_false_iff. apply (leb_true_iff b a).
Qed.

Lemma gtb_true_iff a b : gtb a b = true <-> b < a.
Proof. apply (ltb_true_iff b a). Qed.


Lemma geb_true_iff a b : geb a b = true <-> b <= a.
Proof. apply (leb_true_iff b a). Qed.

(** [Math.max(0, Math.min(position, 1))] is the clamp to [0,1]. *)
Lemma Math_clamp_unit position :
  Math_max 0 (Math_min position 1) = clamp position 0 1.
Proof.
  unfold Math_max, Math_min, clamp, ltb.
  destruct (Qle_bool position 1) eqn:H1; destruct (Qle_bool 0 position) eqn:H0;
    simpl; try reflexivity.
  exfalso.
  apply (leb_false_iff position 1) in H1. apply (leb_false_iff 0 position) in H0.
  lra.
Qed.

(** [Math.max(0, Math.min(x, hi))] is the clamp to [0,hi] when [0 <= hi]. *)
Lemma Math_clamp_upto x hi :
  0 <= hi -> Math_max 0 (Math_min x hi) = clamp x 0 hi.
Proof.
  intro Hhi. unfold Math_max, Math_min, clamp, ltb.
  destruct (Qle_bool x hi) eqn:H1; destruct (Qle_bool 0 x) eqn:H0; simpl.
  - reflexivity.
  - reflexivity.
  - apply (leb_true_iff 0 hi) in Hhi. unfold leb in Hhi. rewrite Hhi. reflexivity.
  - exfalso.
    apply (leb_false_iff x hi) in H1. apply (leb_false_iff 0 x) in H0. lra.
Qed.

Lemma clamp_unit_bounds position : 0 <= clamp position 0 1 <= 1.
Proof.
  unfold clamp.
  destruct (ltb position 0) eqn:H0; [lra|].
  destruct (ltb 1 position) eqn:H1; [lra|].
  apply ltb_false_iff in H0. apply ltb_false_iff in H1. lra.
Qed.

(** ** The seek engine *)

Lemma seekToPosition_unfold engine r position w p :
  player w = Some p ->
  0 < duration r ->
  seekToPosition engine r position w =
    if ltb (Math_abs (targetTime r position - player_currentTime p)) (1 # 10)
    then setCurrentTime (targetTime r position) w
    else (try_catch (seekBy engine (targetTime r position - player_currentTime p))
                    (assignCurrentTime SeekFallback (targetTime r position)) ;;
          setCurrentTime (targetTime r position)) w.
Proof.
  intros Hp Hd.
  unfold seekToPosition, targetTime, bind at 1, get.
  rewrite Hp.
  apply (leb_false_iff (duration r) 0) in Hd. rewrite Hd.
  rewrite Math_clamp_unit.
  destruct (ltb _ _); reflexivity.
Qed.

(** C2: a seek whose delta is below 0.1s issues no command to the adapter
    (the trace and the player are untouched) and only sets the displayed
    time to the target: it is the same as [setCurrentTime(targetTime)]. *)
Theorem seekToPosition_below_threshold engine r position w p :
  player w = Some p ->
  0 < duration r ->
  Qabs (clamp position 0 1 * duration r - player_currentTime p) < 1 # 10 ->
  seekToPosition engine r position w
    = setCurrentTime (clamp position 0 1 * duration r) w
  /\ completes (seekToPosition engine r position w) = true
  /\ log (world_of (seekToPosition engine r position w)) = log w
  /\ player (world_of (seekToPosition engine r position w)) = player w
  /\ currentTime (view (world_of (seekToPosition engine r position w)))
     = clamp position 0 1 * duration r.
Proof.
  intros Hp Hd Hdelta.
  rewrite (seekToPosition_unfold engine r position w p Hp Hd).
  unfold targetTime, Math_abs.
  apply ltb_true_iff in Hdelta. rewrite Hdelta.
  repeat split.
Qed.

Lemma seekToPosition_below_threshold_witness :
  let w := Demo.world in
  let r := Demo.ready in
  (player w = Some Demo.media
   /\ 0 < duration r
   /\ Qabs (clamp (1 # 12) 0 1 * duration r - player_currentTime Demo.media) < 1 # 10)
  /\ seekToPosition Demo.obedient r (1 # 12) w
      = setCurrentTime (clamp (1 # 12) 0 1 * duration r) w
  /\ completes (seekToPosition Demo.obedient r (1 # 12) w) = true
  /\ log (world_of (seekToPosition Demo.obedient r (1 # 12) w)) = log w
  /\ player (world_of (seekToPosition Demo.obedient r (1 # 12) w)) = player w
  /\ currentTime (view (world_of (seekToPosition Demo.obedient r (1 # 12) w)))
     = clamp (1 # 12) 0 1 * duration r.
Proof.
  intros w r. split.
  - repeat split.
  - apply (seekToPosition_below_threshold Demo.obedient r (1 # 12) w Demo.media).
    + reflexivity.
    + reflexivity.
    + reflexivity.
Defined.

(** The state cells after a seek, whatever the adapter did: only the
    displayed time moved, to the target. *)
Lemma seekToPosition_view engine r position w p :
  player w = Some p ->
  0 < duration r ->
  completes (seekToPosition engine r position w) = true
  /\ view (world_of (seekToPosition engine r position w))
     = view (world_of (setCurrentTime (targetTime r position) w)).
Proof.
  intros Hp Hd.
  rewrite (seekToPosition_unfold engine r position w p Hp Hd).
  destruct (ltb _ _); [split; reflexivity|].
  unfold bind, try_catch, seekBy, assignCurrentTime. rewrite Hp.
  destruct (native_seekBy engine _ p); simpl; rewrite ?Hp; split; reflexivity.
Qed.

(** C3: after [seekToPosition(position)] with a known duration the progress
    the bar displays (line 63) is the position clamped to [0,1], whatever
    the adapter answers; the displayed time is clamp(position) * duration. *)
Theorem seekToPosition_displays_clamped_position engine position w p :
  player w = Some p ->
  0 < duration (view w) ->
  let w' := world_of (seekToPosition engine (view w) position w) in
  progress (view w') == clamp position 0 1
  /\ currentTime (view w') = clamp position 0 1 * duration (view w)
  /\ duration (view w') = duration (view w)
  /\ 0 <= progress (view w') <= 1.
Proof.
  intros Hp Hd w'.
  destruct (seekToPosition_view engine (view w) position w p Hp Hd) as [_ Hv].
  assert (Hprog : progress (view w') == clamp position 0 1).
  { unfold w'. rewrite Hv. unfold progress, targetTime. simpl.
    apply (gtb_true_iff (duration (view w)) 0) in Hd. rewrite Hd.
    apply gtb_true_iff in Hd.
    field. intro Hz. rewrite Hz in Hd. apply (Qlt_irrefl 0 Hd). }
  split; [exact Hprog|].
  split; [unfold w'; rewrite Hv; reflexivity|].
  split; [unfold w'; rewrite Hv; reflexivity|].
  rewrite Hprog. apply clamp_unit_bounds.
Qed.

Lemma seekToPosition_displays_clamped_position_witness :
  let w := Demo.world in
  let w' := world_of (seekToPosition Demo.stubborn (view w) (7 # 4) w) in
  (player w = Some Demo.media /\ 0 < duration (view w))
  /\ progress (view w') == clamp (7 # 4) 0 1
  /\ currentTime (view w') = clamp (7 # 4) 0 1 * duration (view w)
  /\ duration (view w') = duration (view w)
  /\ 0 <= progress (view w') <= 1.
Proof.
  intros w w'. split.
  - split; reflexivity.
  - apply (seekToPosition_displays_clamped_position Demo.stubborn (7 # 4) w Demo.media).
    + reflexivity.
    + reflexivity.
Defined.



(** ** Effects and renders *)

Lemma count_app f l l' : count f (l ++ l') = (count f l + count f l')%nat.
Proof. unfold count. rewrite filter_app, length_app. reflexivity. Qed.

Lemma untouchedByEffects_refl w : untouchedByEffects w w.
Proof. unfold untouchedByEffects. tauto. Qed.

Lemma untouchedByEffects_trans w1 w2 w3 :
  untouchedByEffects w1 w2 -> untouchedByEffects w2 w3 -> untouchedByEffects w1 w3.
Proof.
  unfold untouchedByEffects.
  intros (a1 & a2 & a3 & a4 & a5 & a6 & a7 & a8) (b1 & b2 & b3 & b4 & b5 & b6 & b7 & b8).
  repeat split; congruence.
Qed.

Lemma View_eqb_refl r : View_eqb r r = true.
Proof.
  unfold View_eqb, eqb. rewrite !Bool.eqb_reflx, !Qeq_bool_refl. reflexivity.
Qed.

(** Equal renders have equal dependencies. *)
Lemma View_eqb_deps r0 r1 :
  View_eqb r0 r1 = true ->
  deps_initialPosition_changed r0 r1 = false
  /\ deps_autoPlay_changed r0 r1 = false
  /\ deps_autoHide_changed r0 r1 = false.
Proof.
  unfold View_eqb, deps_initialPosition_changed, deps_autoPlay_changed,
    deps_autoHide_changed.
  intro H. repeat (apply andb_true_iff in H; destruct H as [H ?]).
  repeat match goal with E : _ = true |- _ => rewrite E; clear E end.
  repeat split.
Qed.

(** The initial-position effect: when its guard holds it assigns the start
    offset and closes the latch; otherwise it does nothing. *)
Lemma effect_initialPosition_run props r w :
  effect_initialPosition props r w =
  Done tt (if readyForInitialPosition r w
           then with_latch true
                  (with_player (assign_currentTime (startOffset props))
                     (record (AssignCurrentTime InitialPosition (startOffset props)) w))
           else w).
Proof.
  destruct w as [v pl latch tmo width l].
  unfold effect_initialPosition, readyForInitialPosition, hasPlayer, startOffset,
    bind, get, assignCurrentTime, modify. simpl.
  destruct latch, pl as [p|], (gtb (duration r) 0), (isLoading r); simpl;
    try reflexivity.
  destruct (gtb (startPosition props) 0); reflexivity.
Qed.

(** The auto-play effect: when its guard holds it calls [play()] and sets
    [isPlaying]; otherwise it does nothing. *)
Lemma effect_autoPlay_run engine props r w :
  effect_autoPlay engine props r w =
  Done tt (if readyForAutoPlay props r w
           then world_of (setIsPlaying true
                            (with_player (native_play engine) (record CallPlay w)))
           else w).
Proof.
  destruct w as [v pl latch tmo width l].
  unfold effect_autoPlay, readyForAutoPlay, hasPlayer, bind, get, play. simpl.
  destruct (autoPlay props), pl as [p|], (isLoading r); reflexivity.
Qed.

(** One pass of effects. *)
Lemma effects_pass_spec engine props r0 r1 w :
  exists w',
    effects_pass engine props r0 r1 w = Done tt w'
    /\ untouchedByEffects w w'
    /\ log w' = log w
               ++ (if initialPositionFires r0 r1 w
                   then [AssignCurrentTime InitialPosition (startOffset props)] else [])
               ++ (if autoPlayFires props r0 r1 w then [CallPlay] else [])
    /\ hasSetInitialPosition w'
       = hasSetInitialPosition w || initialPositionFires r0 r1 w.
Proof.
  unfold effects_pass, initialPositionFires, autoPlayFires.
  destruct (deps_autoHide_changed r0 r1), (deps_initialPosition_changed r0 r1),
    (deps_autoPlay_changed r0 r1);
    unfold bind, ret, cleanup_autoHide, clearControlsTimeout, modify;
    rewrite ?effect_initialPosition_run;
    rewrite ?effect_autoPlay_run;
    destruct w as [v pl latch tmo width l];
    unfold readyForInitialPosition, readyForAutoPlay, effect_autoHide,
      resetControlsTimeout, clearControlsTimeout, armControlsTimeout,
      untouchedByEffects, hasPlayer, bind, ret, modify; simpl;
    destruct latch, pl as [p|], (gtb (duration r1) 0), (isLoading r1),
      (autoPlay props), (isPlaying r1); simpl;
    eexists; (split; [reflexivity|]); rewrite ?app_nil_r; simpl;
    rewrite <- ?app_assoc; repeat split.
Qed.

(** With no dependency changed a pass does nothing. *)
Lemma effects_pass_idle engine props r0 r1 w :
  deps_initialPosition_changed r0 r1 = false ->
  deps_autoPlay_changed r0 r1 = false ->
  deps_autoHide_changed r0 r1 = false ->
  effects_pass engine props r0 r1 w = Done tt w.
Proof.
  intros H1 H2 H3. unfold effects_pass. rewrite H1, H2, H3. reflexivity.
Qed.

Lemma untouchedByEffects_deps w w' :
  untouchedByEffects w w' ->
  deps_initialPosition_changed (view w) (view w') = false
  /\ deps_autoPlay_changed (view w) (view w') = false.
Proof.
  unfold untouchedByEffects, deps_initialPosition_changed, deps_autoPlay_changed, eqb.
  intros (_ & _ & _ & Hd & _ & _ & Hl & _).
  rewrite Hd, Hl, Qeq_bool_refl, Bool.eqb_reflx. split; reflexivity.
Qed.

(** The equation of [rerender]. *)
Lemma rerender_S engine props n r0 w :
  rerender engine props (S n) r0 w =
  if View_eqb r0 (view w) then Done tt w
  else match effects_pass engine props r0 (view w) w with
       | Done _ w1 => rerender engine props n (view w) w1
       | Thrown w1 => Thrown w1
       end.
Proof.
  simpl. unfold bind at 1, get. destruct (View_eqb r0 (view w)); reflexivity.
Qed.

(** Renders in which neither the duration nor [isLoading] changed send
    nothing to the adapter and leave the latch alone. *)
Lemma rerender_quiet engine props n : forall r0 w,
  deps_initialPosition_changed r0 (view w) = false ->
  deps_autoPlay_changed r0 (view w) = false ->
  exists w',
    rerender engine props n r0 w = Done tt w'
    /\ untouchedByEffects w w'
    /\ log w' = log w
    /\ hasSetInitialPosition w' = hasSetInitialPosition w.
Proof.
  induction n as [|n IH]; intros r0 w H1 H2.
  - exists w. repeat split; apply untouchedByEffects_refl.
  - simpl. unfold bind at 1, get.
    destruct (View_eqb r0 (view w)).
    + exists w. repeat split; apply untouchedByEffects_refl.
    + destruct (effects_pass_spec engine props r0 (view w) w)
        as (w1 & Hrun & Hframe & Hlog & Hlatch).
      unfold initialPositionFires, autoPlayFires in Hlog, Hlatch.
      rewrite H1, H2 in Hlog. rewrite H1 in Hlatch. simpl in Hlog, Hlatch.
      rewrite app_nil_r in Hlog. rewrite orb_false_r in Hlatch.
      destruct (untouchedByEffects_deps w w1 Hframe) as [D1 D2].
      destruct (IH (view w) w1 D1 D2) as (w2 & Hrun2 & Hframe2 & Hlog2 & Hlatch2).
      exists w2. unfold bind. rewrite Hrun.
      refine (conj Hrun2 (conj _ (conj _ _))).
      * exact (untouchedByEffects_trans _ _ _ Hframe Hframe2).
      * congruence.
      * congruence.
Qed.

(** The renders that follow a handler: the effects can fire in the first
    of them only. *)
Lemma rerender_spec engine props n r0 w :
  exists w',
    rerender engine props (S n) r0 w = Done tt w'
    /\ untouchedByEffects w w'
    /\ log w' = log w
               ++ (if initialPositionFires r0 (view w) w
                   then [AssignCurrentTime InitialPosition (startOffset props)] else [])
               ++ (if autoPlayFires props r0 (view w) w then [CallPlay] else [])
    /\ hasSetInitialPosition w'
       = hasSetInitialPosition w || initialPositionFires r0 (view w) w.
Proof.
  simpl. unfold bind at 1, get.
  destruct (View_eqb r0 (view w)) eqn:Heq.
  - destruct (View_eqb_deps _ _ Heq) as (D1 & D2 & _).
    unfold initialPositionFires, autoPlayFires. rewrite D1, D2. simpl.
    exists w. rewrite app_nil_r, orb_false_r.
    repeat split; apply untouchedByEffects_refl.
  - destruct (effects_pass_spec engine props r0 (view w) w)
      as (w1 & Hrun & Hframe & Hlog & Hlatch).
    destruct (untouchedByEffects_deps w w1 Hframe) as [D1 D2].
    destruct (rerender_quiet engine props n (view w) w1 D1 D2)
      as (w2 & Hrun2 & Hframe2 & Hlog2 & Hlatch2).
    exists w2. unfold bind. rewrite Hrun.
    refine (conj Hrun2 (conj _ (conj _ _))).
    + exact (untouchedByEffects_trans _ _ _ Hframe Hframe2).
    + congruence.
    + congruence.
Qed.

(** When no dependency changed the renders do nothing at all. *)
Lemma rerender_idle engine props n r0 w :
  deps_initialPosition_changed r0 (view w) = false ->
  deps_autoPlay_changed r0 (view w) = false ->
  deps_autoHide_changed r0 (view w) = false ->
  rerender engine props n r0 w = Done tt w.
Proof.
  intros H1 H2 H3. destruct n as [|n]; [reflexivity|].
  simpl. unfold bind at 1, get.
  destruct (View_eqb r0 (view w)); [reflexivity|].
  unfold bind. rewrite (effects_pass_idle engine props r0 (view w) w H1 H2 H3).
  destruct n as [|n]; [reflexivity|].
  simpl. unfold bind at 1, get. rewrite View_eqb_refl. reflexivity.
Qed.

(** A pass in which neither the duration nor [isLoading] changed can only
    run the auto-hide effect, which leaves [isPlaying] as it is. *)
Lemma effects_pass_autoHide_only engine props r0 r1 w :
  deps_initialPosition_changed r0 r1 = false ->
  deps_autoPlay_changed r0 r1 = false ->
  exists w',
    effects_pass engine props r0 r1 w = Done tt w'
    /\ untouchedByEffects w w'
    /\ isPlaying (view w') = isPlaying (view w).
Proof.
  intros H1 H2. unfold effects_pass. rewrite H1, H2.
  destruct w as [v pl latch tmo width l].
  unfold cleanup_autoHide, effect_autoHide, resetControlsTimeout, clearControlsTimeout,
    armControlsTimeout, untouchedByEffects, hasPlayer.
  destruct (deps_autoHide_changed r0 r1), (isPlaying r1); eexists; repeat split.
Qed.

Lemma deps_autoHide_same w w' :
  isPlaying (view w') = isPlaying (view w) ->
  deps_autoHide_changed (view w) (view w') = false.
Proof.
  intro H. unfold deps_autoHide_changed. rewrite H, Bool.eqb_reflx. reflexivity.
Qed.

Lemma rerender_two_when_quiet engine props n r0 w :
  deps_initialPosition_changed r0 (view w) = false ->
  deps_autoPlay_changed r0 (view w) = false ->
  rerender engine props (2 + n) r0 w = rerender engine props 2 r0 w.
Proof.
  intros H1 H2.
  change (2 + n)%nat with (S (S n)).
  rewrite (rerender_S engine props (S n)), (rerender_S engine props 1).
  destruct (View_eqb r0 (view w)); [reflexivity|].
  destruct (effects_pass_autoHide_only engine props r0 (view w) w H1 H2)
    as (w1 & Hrun & Hframe & Hplay).
  rewrite Hrun.
  destruct (untouchedByEffects_deps w w1 Hframe) as [D1 D2].
  pose proof (deps_autoHide_same w w1 Hplay) as D3.
  rewrite (rerender_idle engine props (S n) (view w) w1 D1 D2 D3).
  rewrite (rerender_idle engine props 1 (view w) w1 D1 D2 D3).
  reflexivity.
Qed.

(** Three renders are enough: more fuel gives the same world, so after
    [rerender 3] React has nothing left to do. *)
Lemma rerender_settles engine props n r0 w :
  rerender engine props (3 + n) r0 w = rerender engine props 3 r0 w.
Proof.
  change (3 + n)%nat with (S (2 + n)).
  rewrite (rerender_S engine props (2 + n)), (rerender_S engine props 2).
  destruct (View_eqb r0 (view w)); [reflexivity|].
  destruct (effects_pass_spec engine props r0 (view w) w)
    as (w1 & Hrun & Hframe & _).
  rewrite Hrun.
  destruct (untouchedByEffects_deps w w1 Hframe) as [D1 D2].
  apply (rerender_two_when_quiet engine props n (view w) w1 D1 D2).
Qed.

(** ** Handlers *)

(** Reduce the record accesses and updates, nothing else. *)
Ltac project :=
  cbv beta iota delta [player view log hasSetInitialPosition controlsTimeout
    windowWidth with_view with_player with_latch with_timeout with_window record
    world_of completes option_map].

Ltac unfold_handlers :=
  unfold handler, updateProgress, onStatusChange, handleVideoPress, togglePlayPause,
    toggleMute, changePlaybackRate, handleProgressBarTap, onPanResponderGrant,
    onPanResponderMove, onPanResponderRelease, handleProgressBarTouch, seekToPosition,
    resetControlsTimeout, clearControlsTimeout, armControlsTimeout, fire,
    play, pause, seekBy, assignCurrentTime, assignPlaybackRate, assignMuted,
    setIsPlaying, setCurrentTime, setDuration, setShowControls, setPlaybackRate,
    setShowSettings, setIsLoading, setIsDragging, try_catch, bind, get, ret, modify.

(** Case analysis on every test a handler makes. *)
Ltac split_tests :=
  repeat (project;
          match goal with
          | |- context [if ?b then _ else _] => destruct b eqn:?
          | |- context [match native_seekBy ?e ?d ?p with _ => _ end] =>
              destruct (native_seekBy e d p) eqn:?
          end).

Ltac run_handler w :=
  let wv := fresh "wv" in
  let pl := fresh "pl" in
  let wl := fresh "wl" in
  let wt := fresh "wt" in
  let ww := fresh "ww" in
  let wlog := fresh "wlog" in
  destruct w as [wv pl wl wt ww wlog]; destruct pl;
  unfold_handlers; split_tests; project.

Ltac trace_done :=
  rewrite ?filter_app; simpl filter; rewrite ?app_nil_r.

(** No handler touches the latch, assigns the initial position or makes
    the player appear or disappear. *)
Lemma handler_initialPosition engine props SCREEN_WIDTH ev r w :
  let w1 := world_of (handler engine props SCREEN_WIDTH ev r w) in
  hasSetInitialPosition w1 = hasSetInitialPosition w
  /\ hasPlayer w1 = hasPlayer w
  /\ filter isInitialAssignment (log w1) = filter isInitialAssignment (log w).
Proof.
  destruct ev; run_handler w; unfold hasPlayer; project; trace_done; repeat split.
Qed.

(** Only the play/pause button makes a handler call [play()]. *)
Lemma handler_play engine props SCREEN_WIDTH ev r w :
  isPressPlayPause ev = false ->
  filter isPlay (log (world_of (handler engine props SCREEN_WIDTH ev r w)))
  = filter isPlay (log w).
Proof.
  destruct ev; try discriminate; intros _; run_handler w; trace_done; reflexivity.
Qed.

(** ** One step *)

Lemma step_unfold engine props SCREEN_WIDTH w ev :
  step engine props SCREEN_WIDTH w ev
  = world_of (rerender engine props 3 (view w)
                (afterHandler engine props SCREEN_WIDTH w ev)).
Proof. reflexivity. Qed.

(** What a step does to the latch, to the trace and to the cells the
    effects depend on. *)
Lemma step_spec engine props SCREEN_WIDTH w ev :
  let w1 := afterHandler engine props SCREEN_WIDTH w ev in
  let w' := step engine props SCREEN_WIDTH w ev in
  untouchedByEffects w1 w'
  /\ log w' = log w1
              ++ (if initialPositionFires (view w) (view w1) w1
                  then [AssignCurrentTime InitialPosition (startOffset props)] else [])
              ++ (if autoPlayFires props (view w) (view w1) w1 then [CallPlay] else [])
  /\ hasSetInitialPosition w'
     = hasSetInitialPosition w || initialPositionFires (view w) (view w1) w1
  /\ hasPlayer w' = hasPlayer w.
Proof.
  intros w1 w'.
  destruct (rerender_spec engine props 2 (view w) w1)
    as (w2 & Hrun & Hframe & Hlog & Hlatch).
  assert (Hw' : w' = w2).
  { unfold w'. rewrite step_unfold. fold w1. rewrite Hrun. reflexivity. }
  destruct (handler_initialPosition engine props SCREEN_WIDTH ev (view w) w)
    as (Hl1 & Hp1 & _).
  fold (afterHandler engine props SCREEN_WIDTH w ev) in Hl1, Hp1. fold w1 in Hl1, Hp1.
  rewrite Hw'. refine (conj Hframe (conj Hlog (conj _ _))).
  - rewrite Hlatch, Hl1. reflexivity.
  - destruct Hframe as (Hp & _). congruence.
Qed.



Lemma mount_unfold engine props p width :
  mount engine props p width
  = mkWorld initialView (option_map setupPlayer p) false false width [].
Proof.
  unfold mount, bind. rewrite effect_initialPosition_run.
  unfold readyForInitialPosition, hasPlayer. simpl.
  destruct p as [p|]; simpl; rewrite effect_autoPlay_run;
    unfold readyForAutoPlay; simpl; rewrite !andb_false_r; reflexivity.
Qed.



Lemma run_snoc engine props SCREEN_WIDTH evs ev w :
  run engine props SCREEN_WIDTH (evs ++ [ev]) w
  = step engine props SCREEN_WIDTH (run engine props SCREEN_WIDTH evs w) ev.
Proof. unfold run. rewrite fold_left_app. reflexivity. Qed.


(** ** Initial position *)




(** The scenario of the specification: duration 120s, startPosition 30.
    Once the adapter is ready 30 is assigned, and ticks, a second
    loading/ready cycle and gestures add no further assignment. *)
Example initialPosition_scenario :
  let w := run Demo.obedient Demo.props 400
               [Tick; StatusChange readyToPlay; Tick; Tick; StatusChange loading;
                StatusChange readyToPlay; ProgressBarTap (mkTouch 100); Tick]
               (mount Demo.obedient Demo.props (Some Demo.media) 400) in
  filter isInitialAssignment (log w) = [AssignCurrentTime InitialPosition 30].
Proof. vm_compute. reflexivity. Qed.

(** ** Playback rate *)

Lemma playbackRates_offered rate :
  In rate playbackRates -> existsb (eqb rate) playbackRates = true.
Proof.
  intro Hin. apply existsb_exists. exists rate.
  split; [exact Hin|apply Qeq_bool_refl].
Qed.

(** C9: [changePlaybackRate(rate)] assigns the rate to the adapter, stores
    it in the view state and closes the settings menu; that is all it does.
    The menu passes the six rates of [playbackRates] and no other: pressing
    one of them in the open menu does exactly this, also after the renders
    that follow (selecting 1.5 leaves [player.playbackRate] at 1.5 and the
    menu closed). *)
Theorem changePlaybackRate_applies_rate engine props SCREEN_WIDTH rate w p :
  player w = Some p ->
  let res := changePlaybackRate rate w in
  (completes res = true
   /\ player (world_of res) = Some (assign_playbackRate rate p)
   /\ option_map player_playbackRate (player (world_of res)) = Some rate
   /\ playbackRate (view (world_of res)) = rate
   /\ showSettings (view (world_of res)) = false
   /\ log (world_of res) = log w ++ [AssignPlaybackRate rate])
  /\ (In rate playbackRates ->
      controlsOnScreen (view w) = true ->
      showSettings (view w) = true ->
      step engine props SCREEN_WIDTH w (PressRate rate) = world_of res).
Proof.
  intros Hp res. split.
  - unfold res. clear res.
    destruct w as [v pl latch tmo width l]. simpl in Hp. subst pl.
    repeat split.
  - intros Hin Hon Hopen.
    rewrite step_unfold.
    assert (H1 : afterHandler engine props SCREEN_WIDTH w (PressRate rate)
                 = world_of res).
    { unfold afterHandler, handler.
      rewrite Hon, Hopen, (playbackRates_offered rate Hin). reflexivity. }
    rewrite H1. unfold res.
    destruct w as [v pl latch tmo width l]. simpl in Hp. subst pl.
    rewrite rerender_idle; [reflexivity| | |].
    + unfold deps_initialPosition_changed, eqb. simpl.
      rewrite Qeq_bool_refl, Bool.eqb_reflx. reflexivity.
    + unfold deps_autoPlay_changed. simpl. rewrite Bool.eqb_reflx. reflexivity.
    + unfold deps_autoHide_changed. simpl. rewrite Bool.eqb_reflx. reflexivity.
Qed.

Lemma changePlaybackRate_applies_rate_witness :
  let w := Demo.world in
  let res := changePlaybackRate (3 # 2) w in
  (player w = Some Demo.media
   /\ In (3 # 2) playbackRates
   /\ controlsOnScreen (view w) = true
   /\ showSettings (view w) = true)
  /\ option_map player_playbackRate (player (world_of res)) = Some (3 # 2)
  /\ playbackRate (view (world_of res)) = 3 # 2
  /\ showSettings (view (world_of res)) = false
  /\ step Demo.obedient Demo.props 400 w (PressRate (3 # 2)) = world_of res.
Proof.
  intros w res.
  assert (Hin : In (3 # 2) playbackRates) by (simpl; tauto).
  destruct (changePlaybackRate_applies_rate Demo.obedient Demo.props 400 (3 # 2) w
              Demo.media eq_refl) as ((_ & _ & Hrate & Hview & Hmenu & _) & Hstep).
  split; [repeat split; exact Hin|].
  split; [exact Hrate|]. split; [exact Hview|]. split; [exact Hmenu|].
  apply Hstep; [exact Hin|reflexivity|reflexivity].
Defined.

(** ** Auto-play *)

(** A step other than a press on play/pause calls [play()] exactly when
    auto-play is on, the player exists and [isLoading] went from true to
    false in that step. *)
Lemma step_autoPlay engine props SCREEN_WIDTH w ev :
  isPressPlayPause ev = false ->
  let w' := step engine props SCREEN_WIDTH w ev in
  playCount (log w')
  = (playCount (log w)
     + (if autoPlay props && hasPlayer w
           && (isLoading (view w) && negb (isLoading (view w')))
        then 1 else 0))%nat.
Proof.
  intros Hev w'.
  destruct (step_spec engine props SCREEN_WIDTH w ev)
    as (Hframe & Hlog & _ & _).
  destruct (handler_initialPosition engine props SCREEN_WIDTH ev (view w) w)
    as (_ & Hp1 & _).
  pose proof (handler_play engine props SCREEN_WIDTH ev (view w) w Hev) as Hplay.
  fold (afterHandler engine props SCREEN_WIDTH w ev) in Hp1, Hplay.
  set (w1 := afterHandler engine props SCREEN_WIDTH w ev) in *.
  fold w' in Hframe, Hlog.
  destruct Hframe as (_ & _ & _ & _ & _ & _ & Hil & _).
  unfold playCount, count. rewrite Hlog, !filter_app, !length_app, Hplay.
  unfold autoPlayFires, readyForAutoPlay, deps_autoPlay_changed.
  rewrite Hp1, Hil.
  destruct (initialPositionFires (view w) (view w1) w1),
    (autoPlay props), (hasPlayer w), (isLoading (view w)), (isLoading (view w1));
    simpl; lia.
Qed.

Lemma step_hasPlayer engine props SCREEN_WIDTH w ev :
  hasPlayer (step engine props SCREEN_WIDTH w ev) = hasPlayer w.
Proof. apply step_spec. Qed.

(** C6, as the code has it: with auto-play on and a player, and leaving the
    play/pause button aside, [play()] has been called once for each time
    [isLoading] went from true to false along the run: at the first
    completion of loading and again at every later one.  Steps that leave
    [isLoading] as it is call no [play()]. *)
Theorem autoPlay_once_per_loading_completion engine props SCREEN_WIDTH evs :
  forall w,
  forallb (fun ev => negb (isPressPlayPause ev)) evs = true ->
  playCount (log (run engine props SCREEN_WIDTH evs w))
  = (playCount (log w)
     + (if autoPlay props && hasPlayer w
        then loadingCompletions engine props SCREEN_WIDTH evs w else 0))%nat.
Proof.
  induction evs as [|ev evs IH]; intros w Hevs.
  - simpl. destruct (autoPlay props && hasPlayer w); lia.
  - simpl in Hevs. apply andb_true_iff in Hevs. destruct Hevs as [Hev Hevs].
    apply negb_true_iff in Hev.
    simpl run. simpl loadingCompletions. unfold run in IH |- *. simpl fold_left.
    rewrite (IH _ Hevs), (step_autoPlay engine props SCREEN_WIDTH w ev Hev),
      step_hasPlayer.
    destruct (autoPlay props && hasPlayer w); simpl; lia.
Qed.

Lemma autoPlay_once_per_loading_completion_witness :
  let evs := [Tick; StatusChange readyToPlay; Tick; PressMute; StatusChange loading;
              Tick; StatusChange readyToPlay; Tick] in
  let w := mount Demo.obedient Demo.props (Some Demo.media) 400 in
  forallb (fun ev => negb (isPressPlayPause ev)) evs = true
  /\ loadingCompletions Demo.obedient Demo.props 400 evs w = 2%nat
  /\ playCount (log (run Demo.obedient Demo.props 400 evs w))
     = (playCount (log w)
        + (if autoPlay Demo.props && hasPlayer w
           then loadingCompletions Demo.obedient Demo.props 400 evs w else 0))%nat.
Proof.
  intros evs w. split; [reflexivity|]. split; [vm_compute; reflexivity|].
  apply (autoPlay_once_per_loading_completion Demo.obedient Demo.props 400 evs w).
  reflexivity.
Defined.

(** C6 as stated fails: with auto-play on, a second loading/ready cycle
    (no user input at all) makes the component call [play()] a second
    time. *)
Lemma autoPlay_replays_counterexample :
  let w := mount Demo.obedient Demo.props (Some Demo.media) 400 in
  autoPlay Demo.props = true
  /\ playCount (log (run Demo.obedient Demo.props 400
                         [StatusChange readyToPlay] w)) = 1%nat
  /\ playCount (log (run Demo.obedient Demo.props 400
                         [StatusChange readyToPlay; StatusChange loading;
                          StatusChange readyToPlay] w)) = 2%nat.
Proof. vm_compute. repeat split. Qed.

(** ** Reconciliation ticks *)

(** One run of [updateProgress]: it copies the adapter's time, duration and
    playing flag into the view state, calls the parent as [tickCallbacks]
    says and sends nothing to the adapter. *)
Lemma updateProgress_run props w p :
  player w = Some p ->
  updateProgress props w = Done tt (tick props w)
  /\ log (tick props w) = log w ++ tickCallbacks props p
  /\ player (tick props w) = Some p
  /\ currentTime (view (tick props w)) = player_currentTime p
  /\ duration (view (tick props w)) = player_duration p
  /\ isPlaying (view (tick props w)) = player_playing p.
Proof.
  intro Hp. destruct w as [v pl latch tmo width l]. simpl in Hp. subst pl.
  unfold tick, tickCallbacks, pastEnd, updateProgress, fire, bind, get, ret, modify,
    setCurrentTime, setDuration, setIsPlaying.
  project.
  destruct (geb (player_currentTime p) (player_duration p)),
    (gtb (player_duration p) 0), (onVideoEnd props), (onProgress props);
    project; simpl; rewrite ?app_nil_r, <- ?app_assoc; repeat split.
Qed.

Lemma concat_repeat_snoc (l : list Action) n :
  concat (repeat l n) ++ l = concat (repeat l (S n)).
Proof.
  induction n as [|n IH]; simpl.
  - rewrite app_nil_r. reflexivity.
  - rewrite <- app_assoc. f_equal. exact IH.
Qed.

(** Ticks in a row, the adapter standing still: every one of them makes
    the same calls again. *)
Lemma ticks_log props p n : forall w,
  player w = Some p ->
  log (Nat.iter n (tick props) w) = log w ++ concat (repeat (tickCallbacks props p) n)
  /\ player (Nat.iter n (tick props) w) = Some p.
Proof.
  induction n as [|n IH]; intros w Hp.
  - simpl. rewrite app_nil_r. split; [reflexivity|exact Hp].
  - destruct (IH w Hp) as [Hlog Hpl].
    destruct (updateProgress_run props _ p Hpl) as (_ & Hlog' & Hpl' & _).
    simpl Nat.iter. rewrite Hlog', Hlog, <- app_assoc. split; [|exact Hpl'].
    f_equal. apply concat_repeat_snoc.
Qed.

Lemma count_concat_repeat f (l : list Action) n :
  count f (concat (repeat l n)) = (n * count f l)%nat.
Proof.
  induction n as [|n IH]; [reflexivity|].
  simpl. rewrite count_app, IH. reflexivity.
Qed.

(** The step of a tick calls the parent as [tickCallbacks] says: the
    renders that follow call no callback. *)
Lemma step_Tick_callbacks engine props SCREEN_WIDTH w p :
  player w = Some p ->
  callbacks (log (step engine props SCREEN_WIDTH w Tick))
  = callbacks (log w) ++ tickCallbacks props p.
Proof.
  intro Hp.
  destruct (step_spec engine props SCREEN_WIDTH w Tick) as (_ & Hlog & _).
  assert (H1 : afterHandler engine props SCREEN_WIDTH w Tick = tick props w).
  { unfold afterHandler, handler, bind at 1, get. rewrite Hp. reflexivity. }
  rewrite H1 in Hlog.
  destruct (updateProgress_run props w p Hp) as (_ & Hlog1 & _).
  unfold callbacks. rewrite Hlog, Hlog1, !filter_app.
  assert (Hown : filter isCallback (tickCallbacks props p) = tickCallbacks props p).
  { unfold tickCallbacks.
    destruct (pastEnd p && onVideoEnd props),
      (onProgress props && gtb (player_duration p) 0); reflexivity. }
  rewrite Hown.
  destruct (initialPositionFires _ _ _), (autoPlayFires _ _ _ _); simpl;
    rewrite !app_nil_r; reflexivity.
Qed.

Lemma filter_callbacks (f : Action -> bool) l :
  (forall a, f a = true -> isCallback a = true) ->
  filter f (callbacks l) = filter f l.
Proof.
  intro Himp. unfold callbacks.
  induction l as [|a l IH]; [reflexivity|].
  simpl. destruct (isCallback a) eqn:Ha; simpl.
  - rewrite IH. reflexivity.
  - destruct (f a) eqn:Hf; [|exact IH].
    rewrite (Himp a Hf) in Ha. discriminate.
Qed.

Lemma isProgress_isCallback a : isProgress a = true -> isCallback a = true.
Proof. unfold isCallback. intro H. rewrite H. apply orb_true_r. Qed.

Lemma isVideoEnd_isCallback a : isVideoEnd a = true -> isCallback a = true.
Proof. unfold isCallback. intro H. rewrite H. reflexivity. Qed.

Lemma pastEnd_iff p :
  pastEnd p = true
  <-> player_duration p <= player_currentTime p /\ 0 < player_duration p.
Proof.
  unfold pastEnd. rewrite andb_true_iff, geb_true_iff, gtb_true_iff. tauto.
Qed.

(** C7: on a tick with a registered progress callback and a known adapter
    duration, [onProgress(currentTime / duration, currentTime)] is called,
    once, after the end-of-playback call if there is one.  Nothing is
    compared with the previous tick: ticks in a row over an adapter that
    stands still call it again every time. *)
Theorem onProgress_every_tick engine props SCREEN_WIDTH w p :
  player w = Some p ->
  onProgress props = true ->
  0 < player_duration p ->
  let report := FireProgress (player_currentTime p / player_duration p)
                             (player_currentTime p) in
  callbacks (log (step engine props SCREEN_WIDTH w Tick))
  = callbacks (log w)
    ++ (if pastEnd p && onVideoEnd props then [FireVideoEnd] else [])
    ++ [report]
  /\ progressCount (log (step engine props SCREEN_WIDTH w Tick))
     = S (progressCount (log w))
  /\ (forall n,
        filter isProgress (log (Nat.iter n (tick props) w))
        = filter isProgress (log w) ++ repeat report n).
Proof.
  intros Hp Hreg Hd report.
  pose proof (step_Tick_callbacks engine props SCREEN_WIDTH w p Hp) as Hstep.
  assert (Hgt : gtb (player_duration p) 0 = true) by (apply gtb_true_iff; exact Hd).
  assert (Htc : tickCallbacks props p
                = (if pastEnd p && onVideoEnd props then [FireVideoEnd] else [])
                  ++ [report]).
  { unfold tickCallbacks. rewrite Hreg, Hgt. reflexivity. }
  rewrite Htc in Hstep.
  split; [exact Hstep|]. split.
  - unfold progressCount, count.
    rewrite <- (filter_callbacks isProgress _ isProgress_isCallback), Hstep.
    rewrite !filter_app, (filter_callbacks isProgress _ isProgress_isCallback).
    rewrite !length_app.
    destruct (pastEnd p && onVideoEnd props); simpl; lia.
  - intro n. destruct (ticks_log props p n w Hp) as [Hlog _].
    rewrite Hlog, filter_app. f_equal. rewrite Htc. clear Hlog.
    induction n as [|n IH]; [reflexivity|].
    simpl. rewrite !filter_app, IH.
    destruct (pastEnd p && onVideoEnd props); reflexivity.
Qed.

Lemma onProgress_every_tick_witness :
  let w := Demo.world in
  let p := Demo.media in
  let report := FireProgress (player_currentTime p / player_duration p)
                             (player_currentTime p) in
  (player w = Some p /\ onProgress Demo.props = true /\ 0 < player_duration p)
  /\ callbacks (log (step Demo.obedient Demo.props 400 w Tick))
     = callbacks (log w)
       ++ (if pastEnd p && onVideoEnd Demo.props then [FireVideoEnd] else [])
       ++ [report]
  /\ progressCount (log (step Demo.obedient Demo.props 400 w Tick))
     = S (progressCount (log w))
  /\ (forall n,
        filter isProgress (log (Nat.iter n (tick Demo.props) w))
        = filter isProgress (log w) ++ repeat report n).
Proof.
  intros w p report. split.
  - repeat split.
  - apply (onProgress_every_tick Demo.obedient Demo.props 400 w p).
    + reflexivity.
    + reflexivity.
    + reflexivity.
Defined.

(** C1, as the code has it: with an end-of-playback callback registered,
    [onVideoEnd()] is called on every tick on which the adapter is at or
    past the end ([currentTime >= duration] and [duration > 0]) and on no
    other tick; [n] ticks in a row while the adapter stays there call it
    [n] times. *)
Theorem onVideoEnd_every_tick_past_end engine props SCREEN_WIDTH w p :
  player w = Some p ->
  onVideoEnd props = true ->
  videoEndCount (log (step engine props SCREEN_WIDTH w Tick))
  = (videoEndCount (log w) + (if pastEnd p then 1 else 0))%nat
  /\ (forall n,
        videoEndCount (log (Nat.iter n (tick props) w))
        = (videoEndCount (log w) + (if pastEnd p then n else 0))%nat)
  /\ (pastEnd p = true
      <-> player_duration p <= player_currentTime p /\ 0 < player_duration p).
Proof.
  intros Hp Hreg.
  assert (Hown : count isVideoEnd (tickCallbacks props p)
                 = (if pastEnd p then 1 else 0)%nat).
  { unfold tickCallbacks. rewrite Hreg, andb_true_r.
    destruct (pastEnd p), (onProgress props && gtb (player_duration p) 0);
      reflexivity. }
  split; [|split].
  - pose proof (step_Tick_callbacks engine props SCREEN_WIDTH w p Hp) as Hstep.
    unfold videoEndCount, count in *.
    rewrite <- (filter_callbacks isVideoEnd _ isVideoEnd_isCallback), Hstep.
    rewrite filter_app, (filter_callbacks isVideoEnd _ isVideoEnd_isCallback).
    rewrite length_app, Hown. reflexivity.
  - intro n. destruct (ticks_log props p n w Hp) as [Hlog _].
    unfold videoEndCount. rewrite Hlog, count_app, count_concat_repeat, Hown.
    destruct (pastEnd p); lia.
  - apply pastEnd_iff.
Qed.

Lemma onVideoEnd_every_tick_past_end_witness :
  let w := Demo.world_ended in
  let p := Demo.ended in
  (player w = Some p /\ onVideoEnd Demo.props = true)
  /\ videoEndCount (log (step Demo.obedient Demo.props 400 w Tick))
     = (videoEndCount (log w) + (if pastEnd p then 1 else 0))%nat
  /\ (forall n,
        videoEndCount (log (Nat.iter n (tick Demo.props) w))
        = (videoEndCount (log w) + (if pastEnd p then n else 0))%nat)
  /\ (pastEnd p = true
      <-> player_duration p <= player_currentTime p /\ 0 < player_duration p).
Proof.
  intros w p. split.
  - split; reflexivity.
  - apply (onVideoEnd_every_tick_past_end Demo.obedient Demo.props 400 w p).
    + reflexivity.
    + reflexivity.
Defined.

(** C1 as stated fails: playback crosses the end once (the adapter goes
    from 10s to 120s of 120s and stays there) and the two ticks that follow
    call [onVideoEnd()] twice, not once. *)
Lemma onVideoEnd_refires_counterexample :
  let w := Demo.world in
  pastEnd Demo.media = false
  /\ pastEnd Demo.ended = true
  /\ videoEndCount (log (run Demo.obedient Demo.props 400
                             [Tick; EngineUpdate Demo.ended; Tick] w)) = 1%nat
  /\ videoEndCount (log (run Demo.obedient Demo.props 400
                             [Tick; EngineUpdate Demo.ended; Tick; Tick] w)) = 2%nat.
Proof. vm_compute. repeat split. Qed.

(** ** The progress bar *)

Lemma clamp_upto_bounds x hi : 0 <= hi -> 0 <= clamp x 0 hi <= hi.
Proof.
  intro Hhi. unfold clamp.
  destruct (ltb x 0) eqn:H0; [lra|].
  destruct (ltb hi x) eqn:H1; [lra|].
  apply ltb_false_iff in H0. apply ltb_false_iff in H1. lra.
Qed.

(** C8, as the code has it: the position handed to [seekToPosition] by the
    touch and tap handlers is clamp(touchX, 0, barWidth) / barWidth, where
    barWidth is the current window width minus 32 in fullscreen mode and,
    outside fullscreen, the window width recorded when the module was
    loaded ([SCREEN_WIDTH]) minus 32.  It lies in [0,1]. *)
Theorem progressBar_position engine props SCREEN_WIDTH r w p event :
  player w = Some p ->
  0 < duration r ->
  let barWidth := (if isFullscreen props then windowWidth w else SCREEN_WIDTH) - 32 in
  0 < barWidth ->
  let position := clamp (locationX event) 0 barWidth / barWidth in
  newProgress props SCREEN_WIDTH w event = position
  /\ handleProgressBarTouch engine props SCREEN_WIDTH r event w
     = seekToPosition engine r position w
  /\ handleProgressBarTap engine props SCREEN_WIDTH r event w
     = (seekToPosition engine r position ;; resetControlsTimeout r) w
  /\ 0 <= position <= 1.
Proof.
  intros Hp Hd barWidth Hbar position.
  assert (Hnew : newProgress props SCREEN_WIDTH w event = position).
  { unfold newProgress, progressBarWidth. fold barWidth.
    rewrite (Math_clamp_upto (locationX event) barWidth) by lra. reflexivity. }
  apply (leb_false_iff (duration r) 0) in Hd.
  split; [exact Hnew|]. split; [|split].
  - unfold handleProgressBarTouch, bind at 1, get. rewrite Hp, Hd, Hnew. reflexivity.
  - unfold handleProgressBarTap, bind at 1, get. rewrite Hp, Hd, Hnew. reflexivity.
  - destruct (clamp_upto_bounds (locationX event) barWidth) as [Hlo Hhi]; [lra|].
    unfold position. split.
    + apply Qle_shift_div_l; [exact Hbar|lra].
    + apply Qle_shift_div_r; [exact Hbar|lra].
Qed.

Lemma progressBar_position_witness :
  let w := with_window 800 Demo.world in
  let event := mkTouch 100 in
  let barWidth := (if isFullscreen Demo.props then windowWidth w else 400) - 32 in
  let position := clamp (locationX event) 0 barWidth / barWidth in
  (player w = Some Demo.media /\ 0 < duration Demo.ready /\ 0 < barWidth)
  /\ newProgress Demo.props 400 w event = position
  /\ handleProgressBarTouch Demo.obedient Demo.props 400 Demo.ready event w
     = seekToPosition Demo.obedient Demo.ready position w
  /\ handleProgressBarTap Demo.obedient Demo.props 400 Demo.ready event w
     = (seekToPosition Demo.obedient Demo.ready position ;;
        resetControlsTimeout Demo.ready) w
  /\ 0 <= position <= 1.
Proof.
  intros w event barWidth position. split.
  - repeat split.
  - apply (progressBar_position Demo.obedient Demo.props 400 Demo.ready w
             Demo.media event).
    + reflexivity.
    + reflexivity.
    + reflexivity.
Defined.

(** C8 as stated fails outside fullscreen once the window is no longer as
    wide as it was when the module was loaded: loaded at width 400, window
    now 800 wide, touch at x = 400.  The claim makes the bar 768 wide and
    the position 400/768; the code takes the bar to be 368 wide, hands 1 to
    the seek engine and the bar displays the end of the media. *)
Lemma progressBar_width_counterexample :
  let w := with_window 800 Demo.world in
  let event := mkTouch 400 in
  let claimed := clamp (locationX event) 0 (windowWidth w - 32) / (windowWidth w - 32) in
  isFullscreen Demo.props = false
  /\ claimed == 400 # 768
  /\ newProgress Demo.props 400 w event == 1
  /\ ~ newProgress Demo.props 400 w event == claimed
  /\ progress (view (step Demo.obedient Demo.props 400 w (ProgressBarTap event))) == 1.
Proof.
  vm_compute. repeat split; try discriminate.
Qed.

(** ** Guards *)

Lemma sameButDragging_deps v v' :
  sameButDragging v v' ->
  deps_initialPosition_changed v v' = false
  /\ deps_autoPlay_changed v v' = false
  /\ deps_autoHide_changed v v' = false.
Proof.
  unfold sameButDragging, deps_initialPosition_changed, deps_autoPlay_changed,
    deps_autoHide_changed, eqb.
  intros (Hp & _ & Hd & _ & _ & _ & Hl).
  rewrite Hp, Hd, Hl, Qeq_bool_refl, !Bool.eqb_reflx. repeat split.
Qed.

(** The handler of a gesture on the bar, when the seek guard stops it. *)
Lemma gesture_handler_guarded engine props SCREEN_WIDTH w ev :
  player w = None \/ duration (view w) <= 0 ->
  isSeekGesture ev = true ->
  let w1 := afterHandler engine props SCREEN_WIDTH w ev in
  log w1 = log w
  /\ player w1 = player w
  /\ hasSetInitialPosition w1 = hasSetInitialPosition w
  /\ sameButDragging (view w) (view w1).
Proof.
  intros Hguard Hev.
  assert (Hinit : leb (duration initialView) 0 = true) by reflexivity.
  destruct ev; try discriminate Hev; clear Hev;
    unfold afterHandler, sameButDragging;
    run_handler w; simpl in Hguard;
    try (repeat split; fail);
    try (rewrite Hinit in *; discriminate);
    try (destruct Hguard as [Hguard|Hguard];
         [discriminate Hguard
         |apply (leb_true_iff (duration wv) 0) in Hguard; congruence]);
    match goal with
    | H : controlsOnScreen _ = true |- _ =>
        unfold controlsOnScreen in H; apply andb_true_iff in H; destruct H as [H _];
        rewrite H
    end;
    repeat split.
Qed.

(** C10: with the player absent or the duration of the render not
    positive, [seekToPosition], [handleProgressBarTouch] and
    [handleProgressBarTap] return at once and leave the whole world as it
    was.  Hence a gesture on the bar made before the duration is known
    sends nothing to the adapter and changes no state cell but the
    dragging flag. *)
Theorem seek_guards engine props SCREEN_WIDTH r w position event :
  player w = None \/ duration r <= 0 ->
  seekToPosition engine r position w = Done tt w
  /\ handleProgressBarTouch engine props SCREEN_WIDTH r event w = Done tt w
  /\ handleProgressBarTap engine props SCREEN_WIDTH r event w = Done tt w
  /\ (r = view w ->
      forall ev, isSeekGesture ev = true ->
        let w' := step engine props SCREEN_WIDTH w ev in
        log w' = log w
        /\ player w' = player w
        /\ hasSetInitialPosition w' = hasSetInitialPosition w
        /\ sameButDragging (view w) (view w')).
Proof.
  intro Hguard.
  assert (Hfun :
    seekToPosition engine r position w = Done tt w
    /\ handleProgressBarTouch engine props SCREEN_WIDTH r event w = Done tt w
    /\ handleProgressBarTap engine props SCREEN_WIDTH r event w = Done tt w).
  { unfold seekToPosition, handleProgressBarTouch, handleProgressBarTap, bind, get.
    destruct Hguard as [Hnone|Hd].
    - rewrite Hnone. repeat split.
    - apply (leb_true_iff (duration r) 0) in Hd. rewrite Hd.
      destruct (player w); repeat split. }
  destruct Hfun as (H1 & H2 & H3).
  refine (conj H1 (conj H2 (conj H3 _))).
  intros Hr ev Hev w'. subst r.
  destruct (gesture_handler_guarded engine props SCREEN_WIDTH w ev Hguard Hev)
    as (Hlog & Hpl & Hlatch & Hview).
  destruct (sameButDragging_deps _ _ Hview) as (D1 & D2 & D3).
  assert (Hw' : w' = afterHandler engine props SCREEN_WIDTH w ev).
  { unfold w'. rewrite step_unfold.
    rewrite (rerender_idle engine props 3 (view w) _ D1 D2 D3). reflexivity. }
  rewrite Hw'. refine (conj Hlog (conj Hpl (conj Hlatch Hview))).
Qed.

Lemma seek_guards_witness :
  let w := mkWorld (mkView false 0 0 true 1 false false false)
                   (Some Demo.media) false false 400 [] in
  let r := view w in
  (player w = None \/ duration r <= 0)
  /\ seekToPosition Demo.obedient r (1 # 2) w = Done tt w
  /\ handleProgressBarTouch Demo.obedient Demo.props 400 r (mkTouch 200) w = Done tt w
  /\ handleProgressBarTap Demo.obedient Demo.props 400 r (mkTouch 200) w = Done tt w
  /\ (r = view w ->
      forall ev, isSeekGesture ev = true ->
        let w' := step Demo.obedient Demo.props 400 w ev in
        log w' = log w
        /\ player w' = player w
        /\ hasSetInitialPosition w' = hasSetInitialPosition w
        /\ sameButDragging (view w) (view w')).
Proof.
  intros w r.
  assert (Hguard : player w = None \/ duration r <= 0)
    by (right; vm_compute; discriminate).
  split; [exact Hguard|].
  exact (seek_guards Demo.obedient Demo.props 400 r w (1 # 2) (mkTouch 200) Hguard).
Defined.

(** * Further properties of the component *)

(** ** Time display *)

Lemma floor_unique (x : Q) (z : Z) :
  inject_Z z <= x -> x < inject_Z (z + 1) -> Qfloor x = z.
Proof.
  intros Hlo Hhi.
  pose proof (Qfloor_le x) as Fl. pose proof (Qlt_floor x) as Fh.
  assert (H1 : inject_Z z < inject_Z (Qfloor x + 1)) by lra.
  assert (H2 : inject_Z (Qfloor x) < inject_Z (z + 1)) by lra.
  rewrite <- Zlt_Qlt in H1, H2. lia.
Qed.

Lemma floor_minus_Z (x : Q) (k : Z) :
  Qfloor (x - inject_Z k) = (Qfloor x - k)%Z.
Proof.
  pose proof (Qfloor_le x) as Fl. pose proof (Qlt_floor x) as Fh.
  apply floor_unique.
  - unfold Z.sub. rewrite inject_Z_plus, inject_Z_opp. lra.
  - replace (Qfloor x - k + 1)%Z with ((Qfloor x + 1) + - k)%Z by lia.
    rewrite inject_Z_plus, inject_Z_opp. lra.
Qed.

Lemma floor_div_60 (x : Q) : Qfloor (x / 60) = (Qfloor x / 60)%Z.
Proof.
  pose proof (Qfloor_le x) as Fl. pose proof (Qlt_floor x) as Fh.
  set (n := Qfloor x) in *.
  pose proof (Z.mul_div_le n 60 ltac:(lia)) as Dl.
  pose proof (Z.mul_succ_div_gt n 60 ltac:(lia)) as Dh.
  assert (Ql : inject_Z (60 * (n / 60)) <= inject_Z n) by (rewrite <- Zle_Qle; exact Dl).
  assert (Qh : inject_Z (n + 1) <= inject_Z (60 * Z.succ (n / 60)))
    by (rewrite <- Zle_Qle; lia).
  unfold Z.succ in Qh.
  rewrite inject_Z_mult in Ql, Qh. rewrite !inject_Z_plus in Qh.
  change (inject_Z 60) with 60 in Ql, Qh. change (inject_Z 1) with 1 in Qh.
  rewrite inject_Z_plus in Fh. change (inject_Z 1) with 1 in Fh.
  apply floor_unique.
  - apply Qle_shift_div_l; [reflexivity|lra].
  - rewrite inject_Z_plus. change (inject_Z 1) with 1.
    apply Qlt_shift_div_r; [reflexivity|lra].
Qed.

Lemma trunc_nonneg (x : Q) : 0 <= x -> trunc x = Qfloor x.
Proof.
  destruct x as [n d]. unfold trunc, Qfloor, Qle. simpl. intro H.
  apply Z.quot_div_nonneg; lia.
Qed.

(** The parts of [formatTime] for a non-negative time: whole minutes and
    the seconds left over, of the time rounded down to whole seconds. *)
Lemma formatTime_parts (seconds : Q) :
  0 <= seconds ->
  Math_floor (seconds / 60) = (Qfloor seconds / 60)%Z
  /\ Math_floor (remainder seconds 60) = (Qfloor seconds mod 60)%Z.
Proof.
  intro Hs. unfold Math_floor, remainder. split; [apply floor_div_60|].
  assert (Hq : 0 <= seconds / 60) by (apply Qle_shift_div_l; [reflexivity|lra]).
  rewrite (trunc_nonneg _ Hq), floor_div_60.
  assert (E : seconds - 60 * inject_Z (Qfloor seconds / 60)
              == seconds - inject_Z (60 * (Qfloor seconds / 60))).
  { rewrite inject_Z_mult. reflexivity. }
  rewrite (Qfloor_comp _ _ E), floor_minus_Z.
  rewrite Z.mod_eq by lia. reflexivity.
Qed.

Lemma two_digits (z : Z) :
  (0 <= z < 60)%Z -> String.length (padStart 2 "0"%char (toString z)) = 2%nat.
Proof.
  intro Hz.
  assert (Hn : exists n, (n < 60)%nat /\ z = Z.of_nat n).
  { exists (Z.to_nat z). split; lia. }
  destruct Hn as (n & Hn & ->). clear Hz.
  do 60 (destruct n as [|n]; [vm_compute; reflexivity|]). lia.
Qed.

Lemma length_append (a b : String.string) :
  String.length (String.append a b) = (String.length a + String.length b)%nat.
Proof. induction a as [|c a IH]; simpl; [reflexivity|rewrite IH; reflexivity]. Qed.

(** X1: for a time that is not negative, [formatTime] prints the whole
    minutes of the time rounded down to seconds (never wrapped into
    hours), a colon, and the seconds left over, between 0 and 59, always on
    two characters. *)
Theorem formatTime_minutes_seconds (seconds : Q) :
  0 <= seconds ->
  let whole := Qfloor seconds in
  formatTime seconds
  = String.append (toString (whole / 60))
      (String.append ":"%string (padStart 2 "0"%char (toString (whole mod 60))))
  /\ (0 <= whole mod 60 < 60)%Z
  /\ (whole = 60 * (whole / 60) + whole mod 60)%Z
  /\ String.length (padStart 2 "0"%char (toString (whole mod 60))) = 2%nat
  /\ String.length (formatTime seconds)
     = (String.length (toString (whole / 60)) + 3)%nat.
Proof.
  intros Hs whole.
  destruct (formatTime_parts seconds Hs) as [Hm Hsec]. fold whole in Hm, Hsec.
  assert (Hrange : (0 <= whole mod 60 < 60)%Z) by (apply Z.mod_pos_bound; lia).
  assert (Hfmt : formatTime seconds
                 = String.append (toString (whole / 60))
                     (String.append ":"%string
                        (padStart 2 "0"%char (toString (whole mod 60))))).
  { unfold formatTime. rewrite Hm, Hsec. reflexivity. }
  split; [exact Hfmt|]. split; [exact Hrange|].
  split; [apply Z.div_mod; lia|].
  split; [apply two_digits; exact Hrange|].
  rewrite Hfmt, !length_append, (two_digits _ Hrange). simpl. lia.
Qed.

Lemma formatTime_minutes_seconds_witness :
  let seconds := 7451 # 2 in
  let whole := Qfloor seconds in
  0 <= seconds
  /\ formatTime seconds = "62:05"%string
  /\ formatTime seconds
     = String.append (toString (whole / 60))
         (String.append ":"%string (padStart 2 "0"%char (toString (whole mod 60)))).
Proof.
  intros seconds whole.
  assert (Hs : 0 <= seconds) by (vm_compute; discriminate).
  split; [exact Hs|]. split; [vm_compute; reflexivity|].
  exact (proj1 (formatTime_minutes_seconds seconds Hs)).
Defined.

(** ** Transport controls and the overlay *)

(** The renders that follow a handler which changed neither the duration
    nor [isLoading]: the auto-hide effect runs once if [isPlaying] changed,
    and nothing else happens. *)
Lemma rerender_quiet_eq engine props n r0 w :
  deps_initialPosition_changed r0 (view w) = false ->
  deps_autoPlay_changed r0 (view w) = false ->
  rerender engine props (2 + n) r0 w
  = if deps_autoHide_changed r0 (view w)
    then (cleanup_autoHide ;; effect_autoHide (view w)) w
    else Done tt w.
Proof.
  intros H1 H2.
  rewrite (rerender_two_when_quiet engine props n r0 w H1 H2).
  rewrite rerender_S.
  destruct (View_eqb r0 (view w)) eqn:E.
  - destruct (View_eqb_deps _ _ E) as (_ & _ & D3). rewrite D3. reflexivity.
  - destruct (effects_pass_autoHide_only engine props r0 (view w) w H1 H2)
      as (w1 & Hrun & Hframe & Hplay).
    destruct (untouchedByEffects_deps w w1 Hframe) as [D1 D2].
    pose proof (deps_autoHide_same w w1 Hplay) as D3.
    rewrite Hrun, (rerender_idle engine props 1 (view w) w1 D1 D2 D3).
    rewrite <- Hrun. unfold effects_pass. rewrite H1, H2.
    destruct (deps_autoHide_changed r0 (view w)); reflexivity.
Qed.

Lemma rerender3_quiet_eq engine props r0 w :
  deps_initialPosition_changed r0 (view w) = false ->
  deps_autoPlay_changed r0 (view w) = false ->
  rerender engine props 3 r0 w
  = if deps_autoHide_changed r0 (view w)
    then (cleanup_autoHide ;; effect_autoHide (view w)) w
    else Done tt w.
Proof. apply (rerender_quiet_eq engine props 1). Qed.

#[local] Arguments rerender : simpl never.

Ltac same_deps :=
  unfold deps_initialPosition_changed, deps_autoPlay_changed, deps_autoHide_changed,
    eqb; simpl; rewrite ?Qeq_bool_refl, ?Bool.eqb_reflx; reflexivity.

(** X2: the play/pause button sends the command opposite to what the
    adapter is doing ([pause()] if it plays, [play()] if not), whatever the
    view state says; after the renders that follow, the view says playing
    exactly if [play()] was sent, the controls are shown and the auto-hide
    countdown is pending exactly if the view says playing. *)
Theorem pressPlayPause_toggles engine props SCREEN_WIDTH w p :
  player w = Some p ->
  controlsOnScreen (view w) = true ->
  let w' := step engine props SCREEN_WIDTH w PressPlayPause in
  log w' = log w ++ [if player_playing p then CallPause else CallPlay]
  /\ player w'
     = Some ((if player_playing p then native_pause engine else native_play engine) p)
  /\ isPlaying (view w') = negb (player_playing p)
  /\ showControls (view w') = true
  /\ controlsTimeout w' = negb (player_playing p).
Proof.
  intros Hp Hon w'. unfold w'. clear w'.
  destruct w as [[ip ct d sc pr ss il dr] pl latch tmo width l].
  simpl in Hp. subst pl.
  unfold controlsOnScreen in Hon. simpl in Hon.
  apply andb_true_iff in Hon. destruct Hon as [Hsc Hil]. subst sc.
  rewrite step_unfold. unfold afterHandler, handler, controlsOnScreen. simpl.
  rewrite Hil.
  destruct (player_playing p) eqn:Hplaying, ip;
    unfold_handlers; project; rewrite ?Hplaying; project; simpl;
    (rewrite rerender3_quiet_eq; [|same_deps|same_deps]);
    unfold deps_autoHide_changed; simpl;
    unfold cleanup_autoHide, effect_autoHide; unfold_handlers; project; simpl;
    repeat split.
Qed.

Lemma pressPlayPause_toggles_witness :
  let w := Demo.world in
  let w' := step Demo.obedient Demo.props 400 w PressPlayPause in
  (player w = Some Demo.media /\ controlsOnScreen (view w) = true)
  /\ log w' = [CallPause]
  /\ isPlaying (view w') = false
  /\ showControls (view w') = true
  /\ controlsTimeout w' = false.
Proof.
  intros w w'.
  destruct (pressPlayPause_toggles Demo.obedient Demo.props 400 w Demo.media
              eq_refl eq_refl) as (Hlog & _ & Hplay & Hshow & Htmo).
  split; [split; reflexivity|].
  split; [exact Hlog|]. split; [exact Hplay|]. split; [exact Hshow|exact Htmo].
Defined.

(** X3: a tap on the video toggles the overlay: shown controls are hidden
    and the countdown cancelled; hidden controls are shown and the
    countdown is pending exactly if the view says playing.  When the
    countdown elapses the controls are hidden; a timeout that is not
    pending does nothing.  Neither sends anything to the adapter nor
    changes any other state cell. *)
Theorem overlay_toggle_and_autoHide engine props SCREEN_WIDTH w :
  let tapped := step engine props SCREEN_WIDTH w PressVideo in
  let elapsed := step engine props SCREEN_WIDTH w ControlsTimeoutFires in
  (showControls (view tapped) = negb (showControls (view w))
   /\ controlsTimeout tapped = negb (showControls (view w)) && isPlaying (view w)
   /\ log tapped = log w /\ player tapped = player w
   /\ untouchedByEffects w tapped
   /\ isPlaying (view tapped) = isPlaying (view w))
  /\ (elapsed = if controlsTimeout w
                then with_timeout false (world_of (setShowControls false w))
                else w).
Proof.
  intros tapped elapsed. unfold tapped, elapsed. clear tapped elapsed.
  destruct w as [[ip ct d sc pr ss il dr] pl latch tmo width l].
  rewrite !step_unfold. unfold afterHandler, handler. split.
  - unfold handleVideoPress. simpl showControls.
    destruct sc, ip; unfold_handlers; project; simpl;
      (rewrite rerender_idle; [|same_deps|same_deps|same_deps]);
      unfold untouchedByEffects, hasPlayer; simpl; repeat split.
  - unfold bind at 1, get. simpl controlsTimeout.
    destruct tmo; unfold_handlers; project; simpl;
      (rewrite rerender_idle; [|same_deps|same_deps|same_deps]); reflexivity.
Qed.

(** ** The auto-hide countdown *)

Lemma deps_autoHide_isPlaying r0 r1 :
  deps_autoHide_changed r0 r1 = false -> isPlaying r0 = isPlaying r1.
Proof.
  unfold deps_autoHide_changed. intro H. apply negb_false_iff in H.
  apply Bool.eqb_prop in H. exact H.
Qed.

(** A handler leaves the countdown pending only if the render it ran in
    said playing, and then with the controls shown. *)
Lemma handler_timeoutPending engine props SCREEN_WIDTH w ev :
  timeoutInvariant w ->
  timeoutPending (view w) (afterHandler engine props SCREEN_WIDTH w ev).
Proof.
  intro HJ. unfold timeoutInvariant in HJ.
  unfold afterHandler, timeoutPending.
  destruct ev; run_handler w; simpl in HJ |- *; intro Ht;
    try discriminate Ht;
    try (match goal with
         | H : isPlaying initialView = true |- _ => discriminate H
         end);
    try (destruct (HJ Ht) as [HJ1 HJ2]);
    repeat split; try assumption; try reflexivity; try congruence.
Qed.

(** A pass of effects keeps that: afterwards the countdown is pending
    only if the render of the pass said playing. *)
Lemma effects_pass_timeoutPending engine props r0 w :
  timeoutPending r0 w ->
  exists w1,
    effects_pass engine props r0 (view w) w = Done tt w1
    /\ timeoutPending (view w) w1.
Proof.
  unfold timeoutPending, effects_pass.
  destruct w as [[ip ct d sc pr ss il dr] pl latch tmo width l].
  unfold deps_autoHide_changed. simpl view. simpl isPlaying.
  intro HP.
  destruct (isPlaying r0), ip, (deps_initialPosition_changed r0 _),
    (deps_autoPlay_changed r0 _); simpl negb;
    unfold bind, ret, cleanup_autoHide, clearControlsTimeout, modify;
    rewrite ?effect_initialPosition_run;
    rewrite ?effect_autoPlay_run;
    unfold readyForInitialPosition, readyForAutoPlay, effect_autoHide,
      resetControlsTimeout, clearControlsTimeout, armControlsTimeout,
      hasPlayer, setIsPlaying, setShowControls, bind, ret, modify; simpl;
    destruct latch, pl as [p|], (gtb d 0), il, (autoPlay props); simpl;
    eexists; (split; [reflexivity|]); simpl; simpl in HP;
    intro Ht; try discriminate Ht; try (destruct (HP Ht) as [HP1 HP2]);
    repeat split; try assumption; try reflexivity; try congruence.
Qed.

Lemma timeoutPending_settled w :
  timeoutPending (view w) w <-> timeoutInvariant w.
Proof. unfold timeoutPending, timeoutInvariant. tauto. Qed.

Lemma timeoutPending_same r w :
  timeoutPending r w -> isPlaying r = isPlaying (view w) -> timeoutInvariant w.
Proof.
  unfold timeoutPending, timeoutInvariant. intros H E Ht.
  destruct (H Ht) as [H1 H2]. rewrite <- E. split; assumption.
Qed.

Lemma step_timeoutInvariant engine props SCREEN_WIDTH w ev :
  timeoutInvariant w ->
  timeoutInvariant (step engine props SCREEN_WIDTH w ev).
Proof.
  intro HJ.
  pose proof (handler_timeoutPending engine props SCREEN_WIDTH w ev HJ) as P1.
  rewrite step_unfold.
  set (w1 := afterHandler engine props SCREEN_WIDTH w ev) in *.
  rewrite rerender_S.
  destruct (View_eqb (view w) (view w1)) eqn:E1.
  { destruct (View_eqb_deps _ _ E1) as (_ & _ & D).
    exact (timeoutPending_same _ _ P1 (deps_autoHide_isPlaying _ _ D)). }
  destruct (effects_pass_timeoutPending engine props (view w) w1 P1)
    as (w2 & Hrun2 & P2).
  destruct (effects_pass_spec engine props (view w) (view w1) w1)
    as (w2' & Hrun2' & Hframe2 & _).
  rewrite Hrun2 in Hrun2'. injection Hrun2' as <-.
  rewrite Hrun2, rerender_S.
  destruct (View_eqb (view w1) (view w2)) eqn:E2.
  { destruct (View_eqb_deps _ _ E2) as (_ & _ & D).
    exact (timeoutPending_same _ _ P2 (deps_autoHide_isPlaying _ _ D)). }
  destruct (untouchedByEffects_deps w1 w2 Hframe2) as [D1 D2].
  destruct (effects_pass_timeoutPending engine props (view w1) w2 P2)
    as (w3 & Hrun3 & P3).
  destruct (effects_pass_autoHide_only engine props (view w1) (view w2) w2 D1 D2)
    as (w3' & Hrun3' & Hframe3 & Hplay3).
  rewrite Hrun3 in Hrun3'. injection Hrun3' as <-.
  rewrite Hrun3.
  destruct (untouchedByEffects_deps w2 w3 Hframe3) as [D1' D2'].
  rewrite (rerender_idle engine props 1 (view w2) w3 D1' D2'
             (deps_autoHide_same w2 w3 Hplay3)).
  simpl world_of.
  exact (timeoutPending_same _ _ P3 (eq_sym Hplay3)).
Qed.

(** X4: along every run from the mount the auto-hide countdown is pending
    only while the view says playing and the controls are shown; hence it
    is never pending while the controls are hidden or the view says
    paused. *)
Theorem autoHide_pending_only_while_playing_and_shown
        engine props SCREEN_WIDTH p0 width evs :
  let w := run engine props SCREEN_WIDTH evs (mount engine props p0 width) in
  timeoutInvariant w
  /\ (showControls (view w) = false -> controlsTimeout w = false)
  /\ (isPlaying (view w) = false -> controlsTimeout w = false).
Proof.
  intro w.
  assert (HJ : timeoutInvariant w).
  { unfold w. clear w.
    assert (H0 : timeoutInvariant (mount engine props p0 width)).
    { rewrite mount_unfold. unfold timeoutInvariant. simpl. discriminate. }
    revert H0. generalize (mount engine props p0 width).
    induction evs as [|ev evs IH]; intros w0 H0; [exact H0|].
    simpl. apply IH. apply step_timeoutInvariant. exact H0. }
  split; [exact HJ|].
  unfold timeoutInvariant in HJ.
  split; intro H; destruct (controlsTimeout w); try reflexivity;
    destruct (HJ eq_refl); congruence.
Qed.

(** ** Dragging the progress bar *)

(** X5: a drag never seeks.  The pan responder is created in the first
    render and kept in a ref, so its callbacks run the touch handler of
    that render, whose duration is 0: whatever the duration is by now, the
    grant, move and release of a drag send nothing to the adapter and leave
    the displayed time alone.  The grant sets the dragging flag, the release
    clears it, and both leave the auto-hide countdown cancelled, also while
    the video plays. *)
Theorem pan_never_seeks engine props SCREEN_WIDTH w ev :
  isPan ev = true ->
  let w' := step engine props SCREEN_WIDTH w ev in
  log w' = log w
  /\ player w' = player w
  /\ sameButDragging (view w) (view w')
  /\ (controlsOnScreen (view w) = true ->
      match ev with
      | PanGrant _ => isDragging (view w') = true /\ controlsTimeout w' = false
      | PanRelease _ => isDragging (view w') = false /\ controlsTimeout w' = false
      | _ => isDragging (view w') = isDragging (view w)
             /\ controlsTimeout w' = controlsTimeout w
      end).
Proof.
  intros Hev w'.
  assert (Hinit : leb (duration initialView) 0 = true) by reflexivity.
  assert (Hnot : isPlaying initialView = false) by reflexivity.
  assert (H1 :
    let w1 := afterHandler engine props SCREEN_WIDTH w ev in
    log w1 = log w /\ player w1 = player w
    /\ sameButDragging (view w) (view w1)
    /\ (controlsOnScreen (view w) = true ->
        match ev with
        | PanGrant _ => isDragging (view w1) = true /\ controlsTimeout w1 = false
        | PanRelease _ => isDragging (view w1) = false /\ controlsTimeout w1 = false
        | _ => isDragging (view w1) = isDragging (view w)
               /\ controlsTimeout w1 = controlsTimeout w
        end)).
  { destruct ev; try discriminate Hev; clear Hev;
      unfold afterHandler, sameButDragging;
      run_handler w;
      try (rewrite Hinit in *; discriminate);
      try (rewrite Hnot in *; discriminate);
      simpl;
      try (match goal with
           | H : controlsOnScreen _ = true |- _ =>
               let H' := fresh in
               pose proof H as H';
               unfold controlsOnScreen in H'; apply andb_true_iff in H';
               destruct H' as [H' _]; rewrite H'
           end);
      repeat split; try congruence. }
  destruct H1 as (Hlog & Hpl & Hview & Hflag).
  destruct (sameButDragging_deps _ _ Hview) as (D1 & D2 & D3).
  assert (Hw' : w' = afterHandler engine props SCREEN_WIDTH w ev).
  { unfold w'. rewrite step_unfold.
    rewrite (rerender_idle engine props 3 (view w) _ D1 D2 D3). reflexivity. }
  rewrite Hw'. refine (conj Hlog (conj Hpl (conj Hview Hflag))).
Qed.

Lemma pan_never_seeks_witness :
  let w := with_timeout true Demo.world in
  let w' := step Demo.obedient Demo.props 400 w (PanRelease (mkTouch 200)) in
  (isPan (PanRelease (mkTouch 200)) = true
   /\ controlsOnScreen (view w) = true
   /\ 0 < duration (view w)
   /\ isPlaying (view w) = true)
  /\ log w' = log w
  /\ player w' = player w
  /\ currentTime (view w') = currentTime (view w)
  /\ controlsTimeout w' = false.
Proof.
  intros w w'.
  destruct (pan_never_seeks Demo.obedient Demo.props 400 w (PanRelease (mkTouch 200))
              eq_refl) as (Hlog & Hpl & Hview & Hflag).
  split; [repeat split|].
  split; [exact Hlog|]. split; [exact Hpl|].
  split; [exact (proj1 (proj2 Hview))|].
  exact (proj2 (Hflag eq_refl)).
Defined.

(** ** Loading *)

Lemma step_isLoading engine props SCREEN_WIDTH w ev :
  isLoading (view (step engine props SCREEN_WIDTH w ev))
  = match ev with
    | StatusChange s => if hasPlayer w then Status_eqb s loading
                        else isLoading (view w)
    | _ => isLoading (view w)
    end.
Proof.
  destruct (step_spec engine props SCREEN_WIDTH w ev) as (Hframe & _).
  destruct Hframe as (_ & _ & _ & _ & _ & _ & Hil & _).
  rewrite Hil. unfold afterHandler, hasPlayer.
  destruct ev;
    try (run_handler w; reflexivity).
  destruct w as [wv pl wl wt ww wlog]. destruct pl, s; reflexivity.
Qed.

(** X6: [isLoading] mirrors the last status the adapter notified: after
    any run it is true exactly if the last statusChange carried "loading"
    (or, with no notification in the run, if it was true before).  Without
    a player no listener is installed and [isLoading] never changes, so a
    component mounted without a player shows the loading indicator for
    ever. *)
Theorem isLoading_mirrors_status engine props SCREEN_WIDTH evs : forall w,
  isLoading (view (run engine props SCREEN_WIDTH evs w))
  = if hasPlayer w then loadingAfter evs (isLoading (view w))
    else isLoading (view w).
Proof.
  induction evs as [|ev evs IH]; intro w.
  - simpl. destruct (hasPlayer w); reflexivity.
  - simpl run. unfold run in IH |- *. simpl fold_left.
    rewrite IH, step_hasPlayer, step_isLoading.
    unfold loadingAfter. simpl fold_left.
    destruct (hasPlayer w); [|destruct ev; reflexivity].
    destruct ev; reflexivity.
Qed.

(** ** The settings menu *)

Lemma handler_rates engine props SCREEN_WIDTH w ev :
  offered (playbackRate (view w)) = true ->
  ratesOffered (log w) ->
  let w1 := afterHandler engine props SCREEN_WIDTH w ev in
  offered (playbackRate (view w1)) = true /\ ratesOffered (log w1).
Proof.
  intros Hv Hl. unfold afterHandler, ratesOffered in *.
  destruct ev; run_handler w; simpl in Hv, Hl |- *;
    try (match goal with
         | H : _ && existsb (eqb ?rate) playbackRates = true |- _ =>
             apply andb_true_iff in H; destruct H as [_ H]
         end);
    (split; [assumption|]);
    repeat (apply Forall_app; split);
    try assumption; repeat constructor; assumption.
Qed.

(** X7: the playback rate never leaves the menu.  Along every run from
    the mount the rate in the view state is one of 0.5, 0.75, 1, 1.25, 1.5
    and 2, and every rate ever assigned to [player.playbackRate] is one of
    them. *)
Theorem rate_stays_in_menu engine props SCREEN_WIDTH p0 width evs :
  let w := run engine props SCREEN_WIDTH evs (mount engine props p0 width) in
  (exists rate, In rate playbackRates /\ playbackRate (view w) == rate)
  /\ (forall rate, In (AssignPlaybackRate rate) (log w) ->
        exists rate', In rate' playbackRates /\ rate == rate').
Proof.
  intro w.
  assert (Inv : offered (playbackRate (view w)) = true /\ ratesOffered (log w)).
  { unfold w. clear w.
    assert (H0 : offered (playbackRate (view (mount engine props p0 width))) = true
                 /\ ratesOffered (log (mount engine props p0 width))).
    { rewrite mount_unfold. split; [reflexivity|constructor]. }
    revert H0. generalize (mount engine props p0 width).
    induction evs as [|ev evs IH]; intros w0 H0; [exact H0|].
    simpl. apply IH. clear IH.
    destruct H0 as [Hv Hl].
    destruct (handler_rates engine props SCREEN_WIDTH w0 ev Hv Hl) as [Hv1 Hl1].
    destruct (step_spec engine props SCREEN_WIDTH w0 ev) as (Hframe & Hlog & _).
    destruct Hframe as (_ & _ & _ & _ & Hrate & _).
    rewrite Hrate, Hlog. split; [exact Hv1|].
    unfold ratesOffered in *.
    repeat (apply Forall_app; split); try assumption.
    - destruct (initialPositionFires _ _ _); repeat constructor.
    - destruct (autoPlayFires _ _ _ _); repeat constructor. }
  destruct Inv as [Hv Hl]. split.
  - unfold offered in Hv. apply existsb_exists in Hv.
    destruct Hv as (rate & Hin & Heq). exists rate.
    split; [exact Hin|apply Qeq_bool_iff; exact Heq].
  - intros rate Hin. unfold ratesOffered in Hl.
    rewrite Forall_forall in Hl. specialize (Hl _ Hin). simpl in Hl.
    unfold offered in Hl. apply existsb_exists in Hl.
    destruct Hl as (rate' & Hin' & Heq). exists rate'.
    split; [exact Hin'|apply Qeq_bool_iff; exact Heq].
Qed.

(** ** Mute *)

Lemma step_PressMute engine props SCREEN_WIDTH w p :
  player w = Some p ->
  controlsOnScreen (view w) = true ->
  step engine props SCREEN_WIDTH w PressMute
  = with_player (assign_muted (negb (player_muted p)))
                (record (AssignMuted (negb (player_muted p))) w).
Proof.
  intros Hp Hon.
  destruct w as [wv pl wl wt ww wlog]. simpl in Hp. simpl view in Hon. subst pl.
  rewrite step_unfold. unfold afterHandler, handler.
  change (view (mkWorld wv (Some p) wl wt ww wlog)) with wv.
  rewrite Hon. unfold toggleMute, bind, get, assignMuted. project.
  rewrite rerender_S. project. rewrite View_eqb_refl. reflexivity.
Qed.

(** X8: the mute button flips [player.muted] and touches nothing else;
    pressing it twice gives the adapter back exactly as it was, the view
    state unchanged, and two assignments in the trace. *)
Theorem pressMute_twice engine props SCREEN_WIDTH w p :
  player w = Some p ->
  controlsOnScreen (view w) = true ->
  let once := step engine props SCREEN_WIDTH w PressMute in
  let twice := step engine props SCREEN_WIDTH once PressMute in
  option_map player_muted (player once) = Some (negb (player_muted p))
  /\ view once = view w
  /\ player twice = player w
  /\ view twice = view w
  /\ log twice = log w ++ [AssignMuted (negb (player_muted p));
                           AssignMuted (player_muted p)].
Proof.
  intros Hp Hon once twice.
  assert (H1 : once = with_player (assign_muted (negb (player_muted p)))
                        (record (AssignMuted (negb (player_muted p))) w)).
  { apply step_PressMute; assumption. }
  assert (Hp1 : player once = Some (assign_muted (negb (player_muted p)) p)).
  { rewrite H1. simpl. rewrite Hp. reflexivity. }
  assert (Hv1 : view once = view w) by (rewrite H1; reflexivity).
  assert (H2 : twice = with_player (assign_muted (negb (negb (player_muted p))))
                         (record (AssignMuted (negb (negb (player_muted p)))) once)).
  { unfold twice.
    rewrite (step_PressMute engine props SCREEN_WIDTH once _ Hp1)
      by (rewrite Hv1; exact Hon).
    reflexivity. }
  rewrite negb_involutive in H2.
  split; [rewrite Hp1; reflexivity|]. split; [exact Hv1|].
  rewrite H2. simpl. rewrite Hp1, H1. simpl.
  split; [|split].
  - rewrite Hp. destruct p. reflexivity.
  - reflexivity.
  - rewrite <- app_assoc. reflexivity.
Qed.

Lemma pressMute_twice_witness :
  let w := Demo.world in
  let once := step Demo.obedient Demo.props 400 w PressMute in
  let twice := step Demo.obedient Demo.props 400 once PressMute in
  (player w = Some Demo.media /\ controlsOnScreen (view w) = true)
  /\ option_map player_muted (player once) = Some true
  /\ player twice = player w
  /\ log twice = [AssignMuted true; AssignMuted false].
Proof.
  intros w once twice.
  destruct (pressMute_twice Demo.obedient Demo.props 400 w Demo.media
              eq_refl eq_refl) as (H1 & _ & H2 & _ & H3).
  split; [split; reflexivity|].
  split; [exact H1|]. split; [exact H2|exact H3].
Defined.

(** ** From the mount to the first ready notification *)



(** ** Touch positions *)

Lemma clamp_monotone x y hi :
  0 <= hi -> x <= y -> clamp x 0 hi <= clamp y 0 hi.
Proof.
  intros Hhi Hxy. unfold clamp.
  destruct (ltb x 0) eqn:X0; destruct (ltb y 0) eqn:Y0;
    destruct (ltb hi x) eqn:X1; destruct (ltb hi y) eqn:Y1;
    repeat match goal with
           | H : ltb _ _ = true |- _ => apply ltb_true_iff in H
           | H : ltb _ _ = false |- _ => apply ltb_false_iff in H
           end; lra.
Qed.

(** X10: with a bar of positive width the position computed from a touch
    grows with the touch coordinate, is 0 for a touch at or left of the
    bar's start and 1 for a touch at or right of its end: a drag from one
    end to the other sweeps the positions from 0 to 1 without ever going
    back. *)
Theorem newProgress_monotone props SCREEN_WIDTH w :
  0 < progressBarWidth props SCREEN_WIDTH w ->
  (forall x y, x <= y ->
     newProgress props SCREEN_WIDTH w (mkTouch x)
     <= newProgress props SCREEN_WIDTH w (mkTouch y))
  /\ (forall x, x <= 0 -> newProgress props SCREEN_WIDTH w (mkTouch x) == 0)
  /\ (forall x, progressBarWidth props SCREEN_WIDTH w <= x ->
        newProgress props SCREEN_WIDTH w (mkTouch x) == 1).
Proof.
  intro Hbar. set (bw := progressBarWidth props SCREEN_WIDTH w) in *.
  assert (Hnew : forall x, newProgress props SCREEN_WIDTH w (mkTouch x)
                           = clamp x 0 bw / bw).
  { intro x. unfold newProgress. fold bw. simpl locationX.
    rewrite (Math_clamp_upto x bw) by lra. reflexivity. }
  assert (Hnz : ~ bw == 0) by (intro E; rewrite E in Hbar; apply (Qlt_irrefl 0 Hbar)).
  split; [|split].
  - intros x y Hxy. rewrite !Hnew. unfold Qdiv.
    apply Qmult_le_compat_r; [apply clamp_monotone; lra|].
    apply Qinv_le_0_compat. lra.
  - intros x Hx. rewrite Hnew. unfold clamp.
    destruct (ltb x 0) eqn:X0.
    + field. exact Hnz.
    + apply ltb_false_iff in X0.
      destruct (ltb bw x) eqn:X1; [apply ltb_true_iff in X1; lra|].
      assert (E : x == 0) by lra. rewrite E. field. exact Hnz.
  - intros x Hx. rewrite Hnew. unfold clamp.
    destruct (ltb x 0) eqn:X0; [apply ltb_true_iff in X0; lra|].
    destruct (ltb bw x) eqn:X1.
    + field. exact Hnz.
    + apply ltb_false_iff in X1.
      assert (E : x == bw) by lra. rewrite E. field. exact Hnz.
Qed.

Lemma newProgress_monotone_witness :
  let w := Demo.world in
  0 < progressBarWidth Demo.props 400 w
  /\ newProgress Demo.props 400 w (mkTouch 100)
     <= newProgress Demo.props 400 w (mkTouch 250)
  /\ newProgress Demo.props 400 w (mkTouch (-5)) == 0
  /\ newProgress Demo.props 400 w (mkTouch 368) == 1.
Proof.
  intro w.
  assert (Hbar : 0 < progressBarWidth Demo.props 400 w) by reflexivity.
  destruct (newProgress_monotone Demo.props 400 w Hbar) as (Hm & H0 & H1).
  split; [exact Hbar|].
  split; [apply Hm; vm_compute; discriminate|].
  split; [apply H0; vm_compute; discriminate|].
  apply H1. vm_compute. discriminate.
Defined.

(** ** Seeking again, and the tick after a seek *)

Lemma seekToPosition_silent engine r position w p :
  player w = Some p ->
  0 < duration r ->
  Qabs (targetTime r position - player_currentTime p) < 1 # 10 ->
  seekToPosition engine r position w = setCurrentTime (targetTime r position) w.
Proof.
  intros Hp Hd Hdelta.
  rewrite (seekToPosition_unfold engine r position w p Hp Hd).
  apply ltb_true_iff in Hdelta. unfold Math_abs. rewrite Hdelta. reflexivity.
Qed.

(** X11: a seek absorbs its own repetition.  Once a seek to a position
    was carried out (the adapter landed where [seekBy] was asked to go, or
    [seekBy] threw and the target was assigned), the same seek again finds
    a delta inside the dead zone and sends nothing to the adapter. *)
Theorem seek_again_is_silent engine r position w p :
  player w = Some p ->
  0 < duration r ->
  (forall p', native_seekBy engine (targetTime r position - player_currentTime p) p
              = Some p' ->
              player_currentTime p'
              == player_currentTime p + (targetTime r position - player_currentTime p)) ->
  let w1 := world_of (seekToPosition engine r position w) in
  let w2 := world_of (seekToPosition engine r position w1) in
  log w2 = log w1
  /\ player w2 = player w1
  /\ currentTime (view w2) = targetTime r position.
Proof.
  intros Hp Hd Hland w1 w2.
  assert (Hsilent : forall q, player w1 = Some q ->
            Qabs (targetTime r position - player_currentTime q) < 1 # 10 ->
            log w2 = log w1 /\ player w2 = player w1
            /\ currentTime (view w2) = targetTime r position).
  { intros q Hq Hclose. unfold w2.
    rewrite (seekToPosition_silent engine r position w1 q Hq Hd Hclose).
    repeat split. }
  pose proof (seekToPosition_unfold engine r position w p Hp Hd) as Hrun.
  destruct (ltb (Math_abs (targetTime r position - player_currentTime p)) (1 # 10))
    eqn:Hnear.
  - apply (Hsilent p).
    + unfold w1. rewrite Hrun. simpl. exact Hp.
    + apply ltb_true_iff in Hnear. exact Hnear.
  - unfold bind, try_catch, seekBy, assignCurrentTime in Hrun. rewrite Hp in Hrun.
    destruct (native_seekBy engine (targetTime r position - player_currentTime p) p)
      as [p'|] eqn:Hseek.
    + apply (Hsilent p').
      * unfold w1. rewrite Hrun. simpl. rewrite Hp. reflexivity.
      * specialize (Hland p' eq_refl).
        apply Qabs_Qlt_condition. split; lra.
    + simpl in Hrun. rewrite Hp in Hrun.
      apply (Hsilent (assign_currentTime (targetTime r position) p)).
      * unfold w1. rewrite Hrun. simpl. rewrite Hp. reflexivity.
      * unfold assign_currentTime. cbn [player_currentTime].
        apply Qabs_Qlt_condition. split; lra.
Qed.

Lemma seek_again_is_silent_witness :
  let w := Demo.world in
  let r := Demo.ready in
  let w1 := world_of (seekToPosition Demo.stubborn r (1 # 2) w) in
  let w2 := world_of (seekToPosition Demo.stubborn r (1 # 2) w1) in
  (player w = Some Demo.media /\ 0 < duration r)
  /\ log w1 = [CallSeekBy (100 # 2); AssignCurrentTime SeekFallback (120 # 2)]
  /\ log w2 = log w1
  /\ player w2 = player w1.
Proof.
  intros w r w1 w2.
  assert (Hd : 0 < duration r) by reflexivity.
  destruct (seek_again_is_silent Demo.stubborn r (1 # 2) w Demo.media eq_refl Hd)
    as (Hlog & Hpl & _).
  - intros p' H. discriminate H.
  - split; [split; [reflexivity|exact Hd]|].
    split; [vm_compute; reflexivity|]. split; [exact Hlog|exact Hpl].
Defined.

(** X12: a tick overwrites the displayed time and duration with the
    adapter's, and sends no seek command.  So the displayed time of a seek
    inside the dead zone lasts until the next tick only: the adapter was
    not moved, and the tick puts its time back on display. *)
Theorem tick_overrides_displayed_time engine props SCREEN_WIDTH w p :
  player w = Some p ->
  let w' := step engine props SCREEN_WIDTH w Tick in
  currentTime (view w') = player_currentTime p
  /\ duration (view w') = player_duration p
  /\ filter isSeekCommand (log w') = filter isSeekCommand (log w)
  /\ (forall position,
        0 < duration (view w) ->
        Qabs (targetTime (view w) position - player_currentTime p) < 1 # 10 ->
        let seeked := world_of (seekToPosition engine (view w) position w) in
        currentTime (view seeked) = targetTime (view w) position
        /\ currentTime (view (step engine props SCREEN_WIDTH seeked Tick))
           = player_currentTime p).
Proof.
  intros Hp w'.
  assert (Hmirror : forall w0, player w0 = Some p ->
            currentTime (view (step engine props SCREEN_WIDTH w0 Tick))
            = player_currentTime p
            /\ duration (view (step engine props SCREEN_WIDTH w0 Tick))
               = player_duration p
            /\ filter isSeekCommand (log (step engine props SCREEN_WIDTH w0 Tick))
               = filter isSeekCommand (log w0)).
  { intros w0 Hp0.
    destruct (step_spec engine props SCREEN_WIDTH w0 Tick) as (Hframe & Hlog & _).
    assert (H1 : afterHandler engine props SCREEN_WIDTH w0 Tick = tick props w0).
    { unfold afterHandler, handler, bind at 1, get. rewrite Hp0. reflexivity. }
    rewrite H1 in Hframe, Hlog.
    destruct (updateProgress_run props w0 p Hp0) as (_ & Hlog1 & _ & Hct & Hdur & _).
    destruct Hframe as (_ & _ & Hc & Hd & _).
    rewrite Hc, Hd, Hct, Hdur, Hlog, Hlog1, !filter_app.
    repeat split.
    assert (Hnone : filter isSeekCommand (tickCallbacks props p) = []).
    { unfold tickCallbacks.
      destruct (pastEnd p && onVideoEnd props),
        (onProgress props && gtb (player_duration p) 0); reflexivity. }
    rewrite Hnone.
    destruct (initialPositionFires _ _ _), (autoPlayFires _ _ _ _); simpl;
      rewrite ?app_nil_r; reflexivity. }
  destruct (Hmirror w Hp) as (H1 & H2 & H3).
  refine (conj H1 (conj H2 (conj H3 _))).
  intros position Hd Hnear seeked.
  assert (Hs : seeked = world_of (setCurrentTime (targetTime (view w) position) w)).
  { unfold seeked.
    rewrite (seekToPosition_silent engine (view w) position w p Hp Hd Hnear).
    reflexivity. }
  split; [rewrite Hs; reflexivity|].
  apply Hmirror. rewrite Hs. simpl. exact Hp.
Qed.

Lemma tick_overrides_displayed_time_witness :
  let w := Demo.world in
  let seeked := world_of (seekToPosition Demo.obedient (view w) (1201 # 14400) w) in
  (player w = Some Demo.media
   /\ 0 < duration (view w)
   /\ Qabs (targetTime (view w) (1201 # 14400) - player_currentTime Demo.media) < 1 # 10)
  /\ ~ currentTime (view seeked) == 10
  /\ currentTime (view (step Demo.obedient Demo.props 400 seeked Tick)) = 10.
Proof.
  intros w seeked.
  assert (Hd : 0 < duration (view w)) by reflexivity.
  assert (Hnear : Qabs (targetTime (view w) (1201 # 14400)
                        - player_currentTime Demo.media) < 1 # 10) by reflexivity.
  destruct (tick_overrides_displayed_time Demo.obedient Demo.props 400 w Demo.media
              eq_refl) as (_ & _ & _ & Hback).
  destruct (Hback (1201 # 14400) Hd Hnear) as [_ Hafter].
  split; [split; [reflexivity|split; [exact Hd|exact Hnear]]|].
  split; [vm_compute; discriminate|exact Hafter].
Defined.
